(** * Obsidian -> WordPress publishing: pairing, publishing and metadata persistence

    Shallow embedding of [scripts/markdown_processor.py],
    [scripts/obsidian_to_wp_v2.py] and [scripts/wp_polylang_publisher.py]. *)

From Stdlib Require Import String Ascii List ZArith Bool Lia Sorting.Sorted
  Sorting.Permutation Classes.RelationClasses.
Import ListNotations.
Open Scope string_scope.
Open Scope Z_scope.
#[local] Set Warnings "-register-all".

(** ** Python values

    Values found in YAML front matter and JSON bodies. *)
Inductive PyVal : Type :=
| PNone
| PBool (b : bool)
| PInt (z : Z)
| PStr (s : string)
| PList (l : list PyVal)
| PDict (d : list (string * PyVal)).

(** Python truthiness ([if x:]). *)
Definition truthy (v : PyVal) : bool :=
  match v with
  | PNone => false
  | PBool b => b
  | PInt z => negb (z =? 0)
  | PStr s => negb (String.eqb s "")
  | PList l => negb (Nat.eqb (length l) 0)
  | PDict d => negb (Nat.eqb (length d) 0)
  end.

(** Python [==] on the hashable scalars used as dict keys ([True == 1]). *)
Definition py_eqb (a b : PyVal) : bool :=
  match a, b with
  | PNone, PNone => true
  | PBool x, PBool y => Bool.eqb x y
  | PInt x, PInt y => x =? y
  | PBool x, PInt y | PInt y, PBool x => (if x then 1 else 0) =? y
  | PStr x, PStr y => String.eqb x y
  | _, _ => false
  end.

(** A Python dict with insertion order, as an association list:
    [d.get(k)], [k in d] and [d[k] = v] (in place if present, else appended). *)
Section Dict.
Context {K V : Type} (keq : K -> K -> bool).

Fixpoint dict_get (d : list (K * V)) (k : K) : option V :=
  match d with
  | [] => None
  | (k', v) :: d' => if keq k k' then Some v else dict_get d' k
  end.

Fixpoint dict_set (d : list (K * V)) (k : K) (v : V) : list (K * V) :=
  match d with
  | [] => [(k, v)]
  | (k', v') :: d' => if keq k k' then (k', v) :: d' else (k', v') :: dict_set d' k v
  end.
End Dict.

Definition get_or (d : list (string * PyVal)) (k : string) (dflt : PyVal) : PyVal :=
  match dict_get String.eqb d k with Some v => v | None => dflt end.

(** ** Paths ([os.path] on POSIX) *)
Module PathOps.

(** [needle in hay] for strings. *)
Fixpoint contains (needle hay : string) : bool :=
  String.prefix needle hay ||
  match hay with
  | EmptyString => false
  | String _ hay' => contains needle hay'
  end.

(** Index just after the last ['/'] ([p.rfind('/') + 1]). *)
Fixpoint after_last_slash_aux (s : string) (i acc : nat) : nat :=
  match s with
  | EmptyString => acc
  | String c s' =>
      after_last_slash_aux s' (S i) (if Ascii.eqb c "/"%char then S i else acc)
  end.
Definition after_last_slash (s : string) : nat := after_last_slash_aux s 0 0.

Fixpoint all_slashes (s : string) : bool :=
  match s with
  | EmptyString => true
  | String c s' => Ascii.eqb c "/"%char && all_slashes s'
  end.

(** [head.rstrip('/')] *)
Definition rstrip_slash (s : string) : string :=
  string_of_list_ascii
    (rev (let fix drop l := match l with
                            | c :: l' => if Ascii.eqb c "/"%char then drop l' else l
                            | [] => []
                            end in drop (rev (list_ascii_of_string s)))).

(** [posixpath.dirname] *)
Definition dirname (p : string) : string :=
  let i := after_last_slash p in
  let head := substring 0 i p in
  if negb (String.eqb head "") && negb (all_slashes head) then rstrip_slash head
  else head.

(** [posixpath.basename] *)
Definition basename (p : string) : string :=
  let i := after_last_slash p in substring i (String.length p - i) p.

Fixpoint last_char_slash (s : string) : bool :=
  match s with
  | EmptyString => false
  | String c EmptyString => Ascii.eqb c "/"%char
  | String _ s' => last_char_slash s'
  end.

(** [posixpath.join(a, b)] *)
Definition join (a b : string) : string :=
  if String.prefix "/" b then b
  else if String.eqb a "" || last_char_slash a then a ++ b
  else a ++ "/" ++ b.

(** [Path(p).stem]: the basename without its last suffix. *)
Definition stem (p : string) : string :=
  let n := basename p in
  let fix last_dot (s : string) (i : nat) (acc : option nat) :=
    match s with
    | EmptyString => acc
    | String c s' => last_dot s' (S i) (if Ascii.eqb c "."%char then Some i else acc)
    end in
  match last_dot n 0%nat None with
  | Some i => if Nat.ltb 0 i && Nat.ltb i (String.length n - 1) then substring 0 i n
              else n
  | None => n
  end.

End PathOps.

(** ** parse_markdown_file (markdown_processor.py) *)

(** The front matter mapping of a file as [frontmatter.load] returns it. *)
Definition Yaml := list (string * PyVal).

(** The dict built by [parse_markdown_file]; the HTML content is not kept. *)
Record Meta : Type := mkMeta {
  m_title : PyVal;
  m_publish : PyVal;
  m_language : PyVal;
  m_wp_post_id : PyVal;
  m_mirror_post_id : PyVal;
  m_group_id : PyVal;
  m_raw : Yaml
}.

(** [raw] is the result of reading and loading the file: [None] when
    [open] or [frontmatter.load] raises (the [except] branch returns [None]). *)
Definition parse_markdown_file (file_path : string) (raw : option Yaml) : option Meta :=
  match raw with
  | None => None
  | Some metadata =>
      match dict_get String.eqb metadata "publish" with
      | None => None
      | Some publish =>
          if negb (truthy publish) then None
          else Some (mkMeta (get_or metadata "title" (PStr (PathOps.stem file_path)))
                            publish
                            (get_or metadata "language" (PStr "ko"))
                            (get_or metadata "wp-post-id" PNone)
                            (get_or metadata "mirror_post_id" PNone)
                            (get_or metadata "group-id" PNone)
                            metadata)
      end
  end.

(** ** collect_language_pairs (obsidian_to_wp_v2.py) *)
Module Resolver.
Import PathOps.

(** Values Python can hash (dict keys); lists and dicts raise [TypeError]. *)
Definition hashable (v : PyVal) : bool :=
  match v with PList _ | PDict _ => false | _ => true end.

Definition mem (x : string) (s : list string) : bool := existsb (String.eqb x) s.

(** A file lies in a secondary-language (English) folder. *)
Definition is_en (p : string) : bool := contains "/english/" p || contains "/en/" p.

Record Index : Type := mkIndex {
  all_files : list (string * Meta);             (* {file_path: metadata} *)
  post_id_to_file : list (PyVal * string);      (* {post_id: file_path} *)
  group_id_to_files : list (PyVal * list string) (* {group_id: [file_path, ...]} *)
}.

Definition empty_index : Index := mkIndex [] [] [].

(** One iteration of the indexing loop; [None] when a dict operation raises. *)
Definition index_file (load : string -> option Yaml) (ix : Index) (file_path : string)
  : option Index :=
  match parse_markdown_file file_path (load file_path) with
  | None => Some ix
  | Some metadata =>
      let af := dict_set String.eqb (all_files ix) file_path metadata in
      let post_id := m_wp_post_id metadata in
      let pf_opt :=
        if truthy post_id then
          if hashable post_id then Some (dict_set py_eqb (post_id_to_file ix) post_id file_path)
          else None
        else Some (post_id_to_file ix) in
      match pf_opt with
      | None => None
      | Some pf =>
          let group_id := m_group_id metadata in
          if truthy group_id then
            if hashable group_id then
              let g0 := match dict_get py_eqb (group_id_to_files ix) group_id with
                        | Some _ => group_id_to_files ix
                        | None => dict_set py_eqb (group_id_to_files ix) group_id []
                        end in
              let cur := match dict_get py_eqb g0 group_id with Some l => l | None => [] end in
              Some (mkIndex af pf (dict_set py_eqb g0 group_id (app cur [file_path])))
            else None
          else Some (mkIndex af pf (group_id_to_files ix))
      end
  end.

Fixpoint build_index (load : string -> option Yaml) (ix : Index) (files : list string)
  : option Index :=
  match files with
  | [] => Some ix
  | f :: fs => match index_file load ix f with
               | Some ix' => build_index load ix' fs
               | None => None
               end
  end.

Record Pair : Type := mkPair {
  p_title : PyVal;
  ko_file : string;
  en_file : option string;      (* None is Python's None *)
  ko_existing_id : PyVal;
  en_existing_id : PyVal
}.

(** [not en_file] *)
Definition no_file (o : option string) : bool :=
  match o with None => true | Some s => String.eqb s "" end.

Definition wp_id_of (ix : Index) (f : string) : PyVal :=
  match dict_get String.eqb (all_files ix) f with Some m => m_wp_post_id m | None => PNone end.

(** Strategy 1 inner loop: the first group member in an English folder,
    other than [ko], not yet processed. *)
Fixpoint first_group_candidate (ko : string) (processed : list string)
         (group_files : list string) : option string :=
  match group_files with
  | [] => None
  | c :: cs =>
      if negb (String.eqb c ko) && is_en c && negb (mem c processed) then Some c
      else first_group_candidate ko processed cs
  end.

Definition strategy_group (ix : Index) (processed : list string) (ko : string) (md : Meta)
  : option string * PyVal :=
  let g := m_group_id md in
  if truthy g then
    match dict_get py_eqb (group_id_to_files ix) g with
    | Some group_files =>
        match first_group_candidate ko processed group_files with
        | Some c => (Some c, wp_id_of ix c)
        | None => (None, PNone)
        end
    | None => (None, PNone)
    end
  else (None, PNone).

(** Strategy 2; [None] when [mirror_post_id in post_id_to_file] raises. *)
Definition strategy_mirror (ix : Index) (md : Meta) (s : option string * PyVal)
  : option (option string * PyVal) :=
  if no_file (fst s) then
    let mirror := m_mirror_post_id md in
    if truthy mirror then
      if hashable mirror then
        match dict_get py_eqb (post_id_to_file ix) mirror with
        | Some f =>
            Some (Some f, match dict_get String.eqb (all_files ix) f with
                          | Some m => m_wp_post_id m
                          | None => snd s
                          end)
        | None => Some s
        end
      else None
    else Some s
  else Some s.

(** Strategy 3; [dir_exists] is [os.path.exists]. *)
Definition strategy_folder (dir_exists : string -> bool) (ix : Index)
           (processed : list string) (ko : string) (s : option string * PyVal)
  : option string * PyVal :=
  if no_file (fst s) then
    let en_dir := join (dirname ko) "english" in
    if dir_exists en_dir then
      let cand := join en_dir (basename ko) in
      match dict_get String.eqb (all_files ix) cand with
      | Some m => if negb (mem cand processed) then (Some cand, m_wp_post_id m) else s
      | None => s
      end
    else s
  else s.

(** One iteration of the pairing loop over [all_files.items()]. *)
Definition pair_step (dir_exists : string -> bool) (ix : Index)
           (acc : list string * list Pair) (item : string * Meta)
  : option (list string * list Pair) :=
  let '(processed, pairs) := acc in
  let '(ko, md) := item in
  if mem ko processed then Some acc
  else if is_en ko then Some acc
  else
    let s1 := strategy_group ix processed ko md in
    match strategy_mirror ix md s1 with
    | None => None
    | Some s2 =>
        let '(en, en_post_id) := strategy_folder dir_exists ix processed ko s2 in
        let pair := mkPair (m_title md) ko en (m_wp_post_id md) en_post_id in
        let processed1 := app processed [ko] in
        let processed2 := match en with
                          | Some e => if negb (String.eqb e "") then app processed1 [e]
                                      else processed1
                          | None => processed1
                          end in
        Some (processed2, app pairs [pair])
    end.

Fixpoint pair_loop (dir_exists : string -> bool) (ix : Index)
         (acc : list string * list Pair) (items : list (string * Meta))
  : option (list string * list Pair) :=
  match items with
  | [] => Some acc
  | it :: its => match pair_step dir_exists ix acc it with
                 | Some acc' => pair_loop dir_exists ix acc' its
                 | None => None
                 end
  end.

(** [collect_language_pairs], given the discovered [markdown_files]
    and [load], the front matter of each file. [None]: it raises. *)
Definition collect_language_pairs (dir_exists : string -> bool)
           (load : string -> option Yaml) (markdown_files : list string)
  : option (list Pair) :=
  match build_index load empty_index markdown_files with
  | None => None
  | Some ix => match pair_loop dir_exists ix ([], []) (all_files ix) with
               | Some (_, pairs) => Some pairs
               | None => None
               end
  end.

(** The files [collect_language_pairs] adds to [processed_files] for a pair. *)
Definition pair_files (p : Pair) : list string :=
  ko_file p :: match en_file p with
               | Some e => if negb (String.eqb e "") then [e] else []
               | None => []
               end.

(** A document is eligible when [parse_markdown_file] returns a dict. *)
Definition eligible (load : string -> option Yaml) (f : string) : Prop :=
  exists m, parse_markdown_file f (load f) = Some m.

End Resolver.

(** ** Sample inputs *)
Module Samples.
Import Resolver.

Definition yes : PyVal := PBool true.

(** A Korean note with a group id, its positional English twin, a second
    English note of the same group, an orphan English note and a draft. *)
Definition load_a (p : string) : option Yaml :=
  if String.eqb p "/r/a.md" then Some [("publish", yes); ("group-id", PStr "g")]
  else if String.eqb p "/r/english/a.md" then Some [("publish", yes)]
  else if String.eqb p "/r/english/b.md" then Some [("publish", yes); ("group-id", PStr "g")]
  else if String.eqb p "/r/en/c.md" then Some [("publish", yes)]
  else if String.eqb p "/r/d.md" then Some [("publish", PBool false)]
  else None.

Definition files_a : list string :=
  ["/r/a.md"; "/r/d.md"; "/r/en/c.md"; "/r/english/a.md"; "/r/english/b.md"].

Definition index_a : Index :=
  match build_index load_a empty_index files_a with Some ix => ix | None => empty_index end.

Definition md_a : Meta :=
  match dict_get String.eqb (all_files index_a) "/r/a.md" with
  | Some m => m | None => mkMeta PNone PNone PNone PNone PNone PNone [] end.

(** [/r/x.md] carries post id 7; [/r/k.md] mirrors post 7; [/r/s.md]
    mirrors its own post id 9. *)
Definition load_m (p : string) : option Yaml :=
  if String.eqb p "/r/k.md" then Some [("publish", yes); ("mirror_post_id", PInt 7)]
  else if String.eqb p "/r/s.md" then
    Some [("publish", yes); ("wp-post-id", PInt 9); ("mirror_post_id", PInt 9)]
  else if String.eqb p "/r/x.md" then Some [("publish", yes); ("wp-post-id", PInt 7)]
  else None.

Definition files_m : list string := ["/r/k.md"; "/r/s.md"; "/r/x.md"].

Definition index_m : Index :=
  match build_index load_m empty_index files_m with Some ix => ix | None => empty_index end.

Definition md_k : Meta :=
  match dict_get String.eqb (all_files index_m) "/r/k.md" with
  | Some m => m | None => mkMeta PNone PNone PNone PNone PNone PNone [] end.

(** Number of slots (primary or secondary) of [pairs] holding [f]. *)
Definition occurrences (f : string) (pairs : list Pair) : nat :=
  fold_right (fun p n =>
    ((if String.eqb (ko_file p) f then 1 else 0) +
     (match en_file p with Some e => if String.eqb e f then 1 else 0 | None => 0 end) + n)%nat)
    0%nat pairs.
End Samples.

(** ** get_markdown_files (markdown_processor.py) *)
Module Discovery.
Import PathOps.

(** A directory listing as [os.scandir] returns it (in whatever order the
    file system yields), without symbolic links. *)
Inductive Entry : Type :=
| EFile (name : string)
| EDir (name : string) (children : list Entry).

Definition rev_string (s : string) : string :=
  string_of_list_ascii (rev (list_ascii_of_string s)).

(** [s.endswith(suf)] and [s.startswith(pre)] *)
Definition ends_with (suf s : string) : bool := String.prefix (rev_string suf) (rev_string s).
Definition starts_with (pre s : string) : bool := String.prefix pre s.

Definition default_excludes : list string := ["templates"; "drafts"; ".obsidian"].

Definition keep_file (name : string) : bool :=
  ends_with ".md" name && negb (starts_with "." name).

(** The files [os.walk] visits (top-down, pruned subdirectories not
    entered) that pass the filter, as (subdirectory names below the root,
    file name), in walk order: a directory's own files first, then each
    kept subdirectory in listing order ([dirs[:] = ...] prunes the
    excluded names). *)
Definition level_files (children : list Entry) : list (list string * string) :=
  flat_map (fun e => match e with
                     | EFile n => if keep_file n then [([], n)] else []
                     | EDir _ _ => []
                     end) children.

Fixpoint walk_sub (excl : list string) (e : Entry) {struct e} : list (list string * string) :=
  match e with
  | EFile _ => []
  | EDir n kids =>
      if existsb (String.eqb n) excl then []
      else map (fun '(ds, f) => (n :: ds, f))
               (app (level_files kids) (flat_map (walk_sub excl) kids))
  end.

Definition walk_entries (excl : list string) (children : list Entry)
  : list (list string * string) :=
  app (level_files children) (flat_map (walk_sub excl) children).

(** [os.path.join(root, file)] with [root] built by joining the
    subdirectory names onto [top]. *)
Definition render (top : string) (x : list string * string) : string :=
  join (fold_left join (fst x) top) (snd x).

(** [sorted]: Python compares [str] by code points; strings here are UTF-8
    bytes, whose byte order is the code point order. *)
Fixpoint insert_sorted (x : string) (l : list string) : list string :=
  match l with
  | [] => [x]
  | y :: l' => if String.leb x y then x :: l else y :: insert_sorted x l'
  end.

Fixpoint sort (l : list string) : list string :=
  match l with
  | [] => []
  | x :: l' => insert_sorted x (sort l')
  end.

Definition get_markdown_files (top : string) (children : list Entry)
           (exclude_folders : option (list string)) : list string :=
  let excl := match exclude_folders with Some e => e | None => default_excludes end in
  sort (map (render top) (walk_entries excl children)).

(** File [f] sits below the root at subdirectory path [ds]. *)
Inductive InTree : list Entry -> list string -> string -> Prop :=
| in_here cs f : In (EFile f) cs -> InTree cs [] f
| in_sub cs n kids ds f : In (EDir n kids) cs -> InTree kids ds f -> InTree cs (n :: ds) f.

(** Two listings of the same tree: equal up to the order in which
    directories list their entries, at any depth. *)
Inductive same_tree : list Entry -> list Entry -> Prop :=
| st_perm c1 c2 : Permutation c1 c2 -> same_tree c1 c2
| st_sub pre n k1 k2 post : same_tree k1 k2 ->
    same_tree (app pre (EDir n k1 :: post)) (app pre (EDir n k2 :: post))
| st_trans c1 c2 c3 : same_tree c1 c2 -> same_tree c2 c3 -> same_tree c1 c3.

(** The order [sorted] leaves its result in. *)
Definition le_str (a b : string) : Prop := String.leb a b = true.

(** No directory on the path below the root is excluded. *)
Definition kept (excl : list string) (ds : list string) : Prop :=
  Forall (fun d => ~ In d excl) ds.

(** Induction over entries, with the hypothesis for every child. *)
Section EntryInd.
Variable P : Entry -> Prop.
Hypothesis HF : forall n, P (EFile n).
Hypothesis HD : forall n kids, Forall P kids -> P (EDir n kids).

Fixpoint entry_ind' (e : Entry) : P e :=
  match e with
  | EFile n => HF n
  | EDir n kids =>
      HD n kids ((fix go (l : list Entry) : Forall P l :=
                    match l with
                    | [] => Forall_nil P
                    | c :: l' => Forall_cons c (entry_ind' c) (go l')
                    end) kids)
  end.
End EntryInd.

(** A sample tree, listed in some order. *)
Definition tree_b : list Entry :=
  [EFile "b.md"; EDir "drafts" [EFile "d.md"]; EFile ".h.md"; EFile "a.txt";
   EDir "english" [EFile "z.md"; EFile "a.md"]; EFile "a.md"].

End Discovery.

(** ** Publishing: [PolylangPublisher], [save_metadata_to_file], [process_pairs] *)
Module Publish.
Import PathOps Resolver.

(** A JSON response body: [response.json()] raises on [NotJson]. *)
Inductive Body : Type :=
| NotJson
| Json (v : PyVal).

Record Response : Type := mkResponse { status_code : Z; body : Body }.

(** The HTTP requests of [PolylangPublisher]. The post content and the
    authentication are not modelled. *)
Inductive Request : Type :=
| RCategorySearch (name : string)                 (* GET categories?search=name *)
| RCategoryCreate (name : string)                 (* POST categories *)
| RPost (target : option PyVal)                   (* POST posts/{id} or posts *)
        (title : PyVal) (language : string) (obsidian_file_path : string)
        (categories : option PyVal)
| RSetLanguage (post_id : PyVal) (language : string)  (* POST pll set-language *)
| RLinkTranslations (ko en : PyVal)               (* POST pll link-translations *)
| RUploadMedia (file_path : string)               (* POST media *)
| RSetFeatured (post_id : PyVal) (media_id : PyVal). (* POST posts/{id} featured_media *)

(** The faults one [save_metadata_to_file] call may meet: an [open] or
    [read] that raises, a temporary file that cannot be created, a
    [write] that raises after writing a prefix, a temporary file that
    reads back other content than was written, a failing [shutil.move]
    (a POSIX rename: all or nothing), and a final [print] that raises.
    [tmp_name] is the name [NamedTemporaryFile] draws. *)
Record SaveFaults : Type := mkSaveFaults {
  f_read : bool;
  f_create : bool;
  f_write : option string;
  f_stored : option string;
  f_read_temp : bool;
  f_move : bool;
  f_print : bool;
  tmp_name : string
}.

Definition no_faults : SaveFaults :=
  mkSaveFaults false false None None false false false "tmpq3x8k1vz.md".

Inductive Event : Type :=
| ERequest (r : Request)
| ESave (file_path : string) (key : string) (value : PyVal) (ok : bool).

Record Stats : Type := mkStats {
  total : nat; ko_created : nat; ko_updated : nat; en_created : nat;
  en_updated : nat; linked : nat; failed : nat; thumbnail_set : nat
}.

Definition set_failed (s : Stats) : Stats :=
  mkStats (total s) (ko_created s) (ko_updated s) (en_created s) (en_updated s)
          (linked s) (S (failed s)) (thumbnail_set s).

Section Env.
(** The file contents are [str]; [text_len] is Python's [len]. *)
Variable text_len : string -> nat.
(** [frontmatter.loads] and [frontmatter.dumps]; [None]: they raise. *)
Variable fm_loads : string -> option (Yaml * string).
Variable fm_dumps : Yaml * string -> option string.
(** The WordPress server: [requests.post]/[get] as a transition;
    [None]: the call raises (connection error, timeout). *)
Context {Server : Type}.
Variable transport : Server -> Request -> option Response * Server.
(** [os.path.exists] on the cover image candidates and [os.path.exists]
    on directories, as [collect_language_pairs] uses it. *)
Variable image_exists : string -> bool.
(** Whether [str(v)] can be written to stdout: [print] raises
    [UnicodeEncodeError] on a value its encoding cannot take (a lone
    surrogate under strict UTF-8).  Stdout itself is taken to accept
    writes, and the fixed text of every line (Korean, emoji) to encode. *)
Variable encodes : PyVal -> bool.

Record World : Type := mkWorld {
  w_fs : list (string * string);   (* path -> content *)
  w_server : Server;
  w_faults : list SaveFaults;      (* faults of the next save calls *)
  w_log : list Event
}.

(** State and exception monad: [None] is an exception in flight. *)
Definition M (A : Type) : Type := World -> option A * World.

Definition ret {A} (x : A) : M A := fun w => (Some x, w).
Definition bind {A B} (m : M A) (k : A -> M B) : M B :=
  fun w => match m w with
           | (Some x, w') => k x w'
           | (None, w') => (None, w')
           end.
Definition raise {A} : M A := fun w => (None, w).
(** [try: m except Exception: h] *)
Definition catch {A} (m : M A) (h : M A) : M A :=
  fun w => match m w with
           | (None, w') => h w'
           | r => r
           end.

Local Notation "x <- m ;; k" := (bind m (fun x => k))
  (at level 61, m at next level, right associativity).
Local Notation "m ;;; k" := (bind m (fun _ => k))
  (at level 61, right associativity).

Definition lift {A} (o : option A) : M A :=
  match o with Some x => ret x | None => raise end.

Definition modify (f : World -> World) : M unit := fun w => (Some tt, f w).
Definition gets {A} (f : World -> A) : M A := fun w => (Some (f w), w).

Definition log (e : Event) : M unit :=
  modify (fun w => mkWorld (w_fs w) (w_server w) (w_faults w) (app (w_log w) [e])).

(** One [requests] call: logged, then answered by the server. *)
Definition http (r : Request) : M Response :=
  fun w => let '(o, srv) := transport (w_server w) r in
           (o, mkWorld (w_fs w) srv (w_faults w) (app (w_log w) [ERequest r])).

Definition json (resp : Response) : M PyVal :=
  match body resp with Json v => ret v | NotJson => raise end.

(** [v.get(k, d)]: raises unless [v] is a dict. *)
Definition py_get (v : PyVal) (k : string) (d : PyVal) : M PyVal :=
  match v with PDict kvs => ret (get_or kvs k d) | _ => raise end.

(** [v[k]] on a dict. *)
Definition py_item (v : PyVal) (k : string) : M PyVal :=
  match v with
  | PDict kvs => match dict_get String.eqb kvs k with Some x => ret x | None => raise end
  | _ => raise
  end.

(** [v[0]] on a list. *)
Definition py_first (v : PyVal) : M PyVal :=
  match v with PList (x :: _) => ret x | _ => raise end.

Definition ok_status (r : Response) : bool :=
  (status_code r =? 200) || (status_code r =? 201).

(** [s.strip() == '']: [s] is made of [str.isspace] characters only,
    read in their UTF-8 encoding: U+0009-U+000D, U+001C-U+0020, U+0085,
    U+00A0, U+1680, U+2000-U+200A, U+2028, U+2029, U+202F, U+205F and
    U+3000. *)
Fixpoint blank (s : string) : bool :=
  match s with
  | EmptyString => true
  | String c s1 =>
      match nat_of_ascii c with
      | 9 | 10 | 11 | 12 | 13 | 28 | 29 | 30 | 31 | 32 => blank s1
      | 194 =>                                          (* C2 85, C2 A0 *)
          match s1 with
          | String d s2 =>
              match nat_of_ascii d with 133 | 160 => blank s2 | _ => false end
          | EmptyString => false
          end
      | 225 =>                                          (* E1 9A 80 *)
          match s1 with
          | String d (String e s3) =>
              match nat_of_ascii d, nat_of_ascii e with
              | 154, 128 => blank s3
              | _, _ => false
              end
          | _ => false
          end
      | 226 =>                   (* E2 80 80-8A, E2 80 A8, A9, AF; E2 81 9F *)
          match s1 with
          | String d (String e s3) =>
              match nat_of_ascii d, nat_of_ascii e with
              | 128, (128 | 129 | 130 | 131 | 132 | 133 | 134 | 135 | 136 | 137 | 138
                      | 168 | 169 | 175) => blank s3
              | 129, 159 => blank s3
              | _, _ => false
              end
          | _ => false
          end
      | 227 =>                                          (* E3 80 80 *)
          match s1 with
          | String d (String e s3) =>
              match nat_of_ascii d, nat_of_ascii e with
              | 128, 128 => blank s3
              | _, _ => false
              end
          | _ => false
          end
      | _ => false
      end%nat
  end.

(** [print] of a line whose interpolated values can ([true]) or cannot
    be encoded. *)
Definition print_line (ok : bool) : M unit := if ok then ret tt else raise.

(** [get_or_create_category]: the test before [try] raises
    ([AttributeError]) on a truthy name that is not a [str]; inside
    [try] every error ends in [None], among them the [print] of the
    name and the id found or created (a [UnicodeEncodeError] is a
    [ValueError]: the inner [except] catches it and returns [None]).
    The lines printed on the failure paths end in [None] whether or not
    they print. *)
Definition get_or_create_category (category_name : PyVal) : M PyVal :=
  if negb (truthy category_name) then ret PNone else
  match category_name with
  | PStr name =>
      if blank name then ret PNone else
      catch
        (response <- http (RCategorySearch name) ;;
         found <- (if status_code response =? 200 then
                     categories <- json response ;;
                     (if truthy categories then
                        c0 <- py_first categories ;;
                        cat_id <- py_item c0 "id" ;;
                        print_line (encodes (PStr name) && encodes cat_id) ;;;
                        ret (Some cat_id)
                      else ret None)
                   else ret None) ;;
         match found with
         | Some cat_id => ret cat_id
         | None =>
             create_response <- http (RCategoryCreate name) ;;
             if ok_status create_response then
               cat_data <- json create_response ;;
               cat_id <- py_item cat_data "id" ;;
               print_line (encodes (PStr name) && encodes cat_id) ;;;
               ret cat_id
             else ret PNone
         end)
        (ret PNone)
  | _ => raise
  end.

(** [_set_polylang_language]: its own [try] swallows every error. *)
Definition set_polylang_language (post_id : PyVal) (language : string) : M unit :=
  catch (http (RSetLanguage post_id language) ;;; ret tt) (ret tt).

(** The dict [publish_post] returns: [success] and [post_id]. *)
Record PublishResult : Type := mkPublishResult { success : bool; pr_post_id : PyVal }.

Definition post_target (post_id : PyVal) : option PyVal :=
  if truthy post_id then Some post_id else None.

(** [publish_post]; [metadata] is [{'obsidian_file_path': path}] as
    [process_pairs] passes it.  The success line printed inside [try]
    shows [title] and the new id; the failure lines print into the
    [except] branch or end there, with the same result, and the
    [except] branch's own line is taken to print. *)
Definition publish_post (title : PyVal) (language : string) (path : string)
           (post_id : PyVal) (category_name : PyVal) : M PublishResult :=
  let polylang_language :=
    if String.eqb language "ko" then "ko_KR"
    else if String.eqb language "en" then "en_US" else language in
  category_id <- (if truthy category_name then get_or_create_category category_name
                  else ret PNone) ;;
  let categories := if truthy category_id then Some category_id else None in
  catch
    (response <- http (RPost (post_target post_id) title language path categories) ;;
     if ok_status response then
       result <- json response ;;
       new_id <- py_get result "id" PNone ;;
       (* [post_id = result.get('id')]: from here on the [except] branch
          returns the new id. *)
       catch
         (_ <- py_get result "link" PNone ;;
          print_line (encodes title && encodes new_id) ;;;
          set_polylang_language new_id polylang_language ;;;
          ret (mkPublishResult true new_id))
         (ret (mkPublishResult false new_id))
     else
       err <- json response ;;
       _ <- py_get err "message" PNone ;;
       ret (mkPublishResult false post_id))
    (ret (mkPublishResult false post_id)).

(** [link_translations], reduced to its [success] flag. *)
Definition link_translations (ko_post_id en_post_id : PyVal) : M bool :=
  catch
    (response <- http (RLinkTranslations ko_post_id en_post_id) ;;
     if ok_status response then
       data <- json response ;;
       ok <- py_get data "success" PNone ;;
       if truthy ok then (_ <- py_get data "message" PNone ;; ret true)
       else (_ <- py_get data "message" PNone ;; ret false)
     else
       err <- json response ;;
       _ <- py_get err "message" PNone ;;
       ret false)
    (ret false).

(** [set_featured_image], reduced to its [success] flag. *)
Definition set_featured_image (post_id : PyVal) (file_path : string) : M bool :=
  if negb (image_exists file_path) then ret false else
  catch
    (upload_response <- http (RUploadMedia file_path) ;;
     if negb (ok_status upload_response) then
       err <- json upload_response ;;
       _ <- py_get err "message" PNone ;;
       ret false
     else
       media_data <- json upload_response ;;
       media_id <- py_get media_data "id" PNone ;;
       update_response <- http (RSetFeatured post_id media_id) ;;
       if ok_status update_response then ret true
       else
         err <- json update_response ;;
         _ <- py_get err "message" PNone ;;
         ret false)
    (ret false).

Definition cover_extensions : list string := [".jpg"; ".jpeg"; ".png"; ".gif"; ".webp"].

Fixpoint first_existing (folder : string) (exts : list string) : option string :=
  match exts with
  | [] => None
  | ext :: exts' =>
      let cover_path := join folder ("cover" ++ ext) in
      if image_exists cover_path then Some cover_path else first_existing folder exts'
  end.

(** [find_cover_image] *)
Definition find_cover_image (folder_path : string) : option string :=
  let current_folder := dirname folder_path in
  match first_existing current_folder cover_extensions with
  | Some c => Some c
  | None =>
      let parent_folder := dirname current_folder in
      if negb (String.eqb parent_folder current_folder)
      then first_existing parent_folder cover_extensions
      else None
  end.

(** Files on disk. *)
Definition fs_get (w : World) (path : string) : option string :=
  dict_get String.eqb (w_fs w) path.

Definition fs_remove (path : string) (fs : list (string * string)) : list (string * string) :=
  filter (fun kv => negb (String.eqb (fst kv) path)) fs.

Definition set_fs (f : list (string * string) -> list (string * string)) : M unit :=
  modify (fun w => mkWorld (f (w_fs w)) (w_server w) (w_faults w) (w_log w)).

Definition path_exists (path : string) : M bool :=
  gets (fun w => match fs_get w path with Some _ => true | None => false end).

(** [open(path).read()]; [fail]: the read raises. *)
Definition read_file (fail : bool) (path : string) : M string :=
  if fail then raise else
  c <- gets (fun w => fs_get w path) ;; lift c.

Definition write_file (path content : string) : M unit :=
  set_fs (fun fs => dict_set String.eqb fs path content).

(** [os.unlink]: raises when the file is missing. *)
Definition unlink (path : string) : M unit :=
  b <- path_exists path ;;
  if b then set_fs (fs_remove path) else raise.

(** [shutil.move] within one directory: [os.rename]. *)
Definition rename (src dst : string) : M unit :=
  c <- read_file false src ;;
  set_fs (fun fs => fs_remove src (dict_set String.eqb fs dst c)).

Definition next_faults : M SaveFaults :=
  fun w => match w_faults w with
           | [] => (Some no_faults, w)
           | f :: fs => (Some f, mkWorld (w_fs w) (w_server w) fs (w_log w))
           end.

(** [not new or len(new) < len(original) - 100] *)
Definition too_short (original_content new_content : string) : bool :=
  (text_len new_content =? 0)%nat
  || (Z.of_nat (text_len new_content) <? Z.of_nat (text_len original_content) - 100).

(** [save_metadata_to_file]. Until the temporary file is created,
    [temp_file] is [None] and the [except] branch has nothing to remove;
    the inner [catch] is the same [except] branch once [temp_file] is
    set. The printed outcome is recorded as an [ESave] event. *)
Definition save_metadata_to_file (file_path metadata_key : string) (metadata_value : PyVal)
  : M bool :=
  flt <- next_faults ;;
  let temp := join (dirname file_path) (tmp_name flt) in
  r <- catch
    (original_content <- read_file (f_read flt) file_path ;;
     post <- lift (fm_loads original_content) ;;
     let post' := (dict_set String.eqb (fst post) metadata_key metadata_value, snd post) in
     new_content <- lift (fm_dumps post') ;;
     if too_short original_content new_content then ret false else
     taken <- path_exists temp ;;
     if f_create flt || taken then raise else
     catch
       (write_file temp "" ;;;
        (match f_write flt with
         | Some partial => write_file temp partial ;;; raise
         | None => write_file temp (match f_stored flt with
                                    | Some t => t
                                    | None => new_content
                                    end)
         end) ;;;
        written_content <- read_file (f_read_temp flt) temp ;;
        if too_short original_content written_content then
          unlink temp ;;; ret false
        else
          (if f_move flt then raise else rename temp file_path) ;;;
          (if f_print flt then raise else ret tt) ;;;
          ret true)
       (left_over <- path_exists temp ;;
        (if left_over then unlink temp else ret tt) ;;;
        ret false))
    (ret false) ;;
  log (ESave file_path metadata_key metadata_value r) ;;;
  ret r.

(** [frontmatter.load] of a file on disk, as [parse_markdown_file] reads it. *)
Definition load_fs (fs : list (string * string)) (path : string) : option Yaml :=
  match dict_get String.eqb fs path with
  | Some t => option_map fst (fm_loads t)
  | None => None
  end.

Definition parse_now (path : string) : M (option Meta) :=
  gets (fun w => parse_markdown_file path (load_fs (w_fs w) path)).

Definition bump_ko (updated : bool) (s : Stats) : Stats :=
  if updated
  then mkStats (total s) (ko_created s) (S (ko_updated s)) (en_created s) (en_updated s)
               (linked s) (failed s) (thumbnail_set s)
  else mkStats (total s) (S (ko_created s)) (ko_updated s) (en_created s) (en_updated s)
               (linked s) (failed s) (thumbnail_set s).

Definition bump_en (updated : bool) (s : Stats) : Stats :=
  if updated
  then mkStats (total s) (ko_created s) (ko_updated s) (en_created s) (S (en_updated s))
               (linked s) (failed s) (thumbnail_set s)
  else mkStats (total s) (ko_created s) (ko_updated s) (S (en_created s)) (en_updated s)
               (linked s) (failed s) (thumbnail_set s).

Definition bump_linked (s : Stats) : Stats :=
  mkStats (total s) (ko_created s) (ko_updated s) (en_created s) (en_updated s)
          (S (linked s)) (failed s) (thumbnail_set s).

Definition bump_thumbnail (s : Stats) : Stats :=
  mkStats (total s) (ko_created s) (ko_updated s) (en_created s) (en_updated s)
          (linked s) (failed s) (S (thumbnail_set s)).

(** The cover image step of one side. *)
Definition set_cover (post_id : PyVal) (path : string) (stats : Stats) : M Stats :=
  match find_cover_image path with
  | Some cover_image =>
      ok <- set_featured_image post_id cover_image ;;
      ret (if ok then bump_thumbnail stats else stats)
  | None => ret stats
  end.

(** Step 2 of the loop body: the English side, once the Korean post is
    published ([continue] is the early [ret]). [None.get] on a file that
    no longer parses raises out of [process_pairs]. *)
Definition process_en (pair : Pair) (ko_post_id : PyVal) (stats : Stats) : M Stats :=
  match en_file pair with
  | Some e =>
      if String.eqb e "" then ret stats else
      en_parsed <- parse_now e ;;
      en_metadata <- lift en_parsed ;;
      en_result <- publish_post (m_title en_metadata) "en" e (en_existing_id pair)
                                (get_or (m_raw en_metadata) "en-category" PNone) ;;
      if negb (success en_result) then ret (set_failed stats) else
      let en_post_id := pr_post_id en_result in
      let stats := bump_en (truthy (en_existing_id pair)) stats in
      save_metadata_to_file e "wp-post-id" en_post_id ;;;
      stats <- set_cover en_post_id e stats ;;
      link_ok <- link_translations ko_post_id en_post_id ;;
      ret (if link_ok then bump_linked stats else set_failed stats)
  | None => ret stats
  end.

(** The loop body of [process_pairs] for one pair. *)
Definition process_pair (pair : Pair) (stats : Stats) : M Stats :=
  ko_parsed <- parse_now (ko_file pair) ;;
  ko_metadata <- lift ko_parsed ;;
  ko_result <- publish_post (m_title ko_metadata) "ko" (ko_file pair) (ko_existing_id pair)
                            (get_or (m_raw ko_metadata) "ko-category" PNone) ;;
  if negb (success ko_result) then ret (set_failed stats) else
  let ko_post_id := pr_post_id ko_result in
  let stats := bump_ko (truthy (ko_existing_id pair)) stats in
  save_metadata_to_file (ko_file pair) "wp-post-id" ko_post_id ;;;
  stats <- set_cover ko_post_id (ko_file pair) stats ;;
  process_en pair ko_post_id stats.

Fixpoint process_loop (pairs : list Pair) (stats : Stats) : M Stats :=
  match pairs with
  | [] => ret stats
  | p :: rest => stats' <- process_pair p stats ;; process_loop rest stats'
  end.

Definition process_pairs (pairs : list Pair) : M Stats :=
  process_loop pairs (mkStats (length pairs) 0 0 0 0 0 0 0).

(** One run of [main] after the connection checks: pair the discovered
    files as they are on disk, then process the pairs. *)
Definition run (dir_exists : string -> bool) (markdown_files : list string) : M Stats :=
  fs <- gets w_fs ;;
  pairs <- lift (collect_language_pairs dir_exists (load_fs fs) markdown_files) ;;
  process_pairs pairs.
End Env.

(** The fault record the next save call takes. *)
Definition current_faults {Server} (w : @World Server) : SaveFaults :=
  match w_faults w with [] => no_faults | f :: _ => f end.
End Publish.

(** ** A concrete environment: a small front matter format and a server *)
Module PublishSamples.
Import PathOps Resolver Publish.

(** Front matter: a [---] line, [key: value] lines ([#] lines are YAML
    comments, which [frontmatter.loads] drops), a [---] line, the body. *)
Fixpoint split_lines_aux (s : string) (cur : string) : list string :=
  match s with
  | EmptyString => [cur]
  | String c s' => if Ascii.eqb c "010"%char then cur :: split_lines_aux s' ""
                   else split_lines_aux s' (cur ++ String c "")
  end.

Definition split_lines (s : string) : list string := split_lines_aux s "".

Definition nl : string := String "010"%char "".

Fixpoint digits_value (s : string) (acc : Z) : option Z :=
  match s with
  | EmptyString => Some acc
  | String c s' =>
      let n := Z.of_nat (nat_of_ascii c) - 48 in
      if (0 <=? n) && (n <=? 9) then digits_value s' (10 * acc + n) else None
  end.

Definition parse_scalar (s : string) : PyVal :=
  if String.eqb s "true" then PBool true
  else if String.eqb s "false" then PBool false
  else if String.eqb s "null" then PNone
  else if String.eqb s "" then PNone
  else match digits_value s 0 with Some z => PInt z | None => PStr s end.

Fixpoint digits_of (fuel : nat) (n : Z) (acc : string) : string :=
  match fuel with
  | O => acc
  | S fuel' =>
      let d := String (ascii_of_nat (Z.to_nat (48 + n mod 10))) "" in
      if n <? 10 then d ++ acc else digits_of fuel' (n / 10) (d ++ acc)
  end.

Definition render_scalar (v : PyVal) : string :=
  match v with
  | PNone => "null"
  | PBool true => "true"
  | PBool false => "false"
  | PInt z => if z <? 0 then "-" ++ digits_of 20 (- z) "" else digits_of 20 z ""
  | PStr s => s
  | _ => "null"
  end.

(** [key: value] *)
Fixpoint split_key (s : string) (acc : string) : option (string * string) :=
  match s with
  | String ":" (String " " rest) => Some (acc, rest)
  | String c s' => split_key s' (acc ++ String c "")
  | EmptyString => None
  end.

Fixpoint meta_lines (ls : list string) (y : Yaml) : option (Yaml * list string) :=
  match ls with
  | [] => None
  | l :: ls' =>
      if String.eqb l "---" then Some (y, ls')
      else if String.prefix "#" l then meta_lines ls' y
      else match split_key l "" with
           | Some (k, v) => meta_lines ls' (dict_set String.eqb y k (parse_scalar v))
           | None => None
           end
  end.

Fixpoint join_lines (ls : list string) : string :=
  match ls with
  | [] => ""
  | [l] => l
  | l :: ls' => l ++ nl ++ join_lines ls'
  end.

Definition toy_loads (t : string) : option (Yaml * string) :=
  match split_lines t with
  | "---" :: ls => match meta_lines ls [] with
                   | Some (y, body) => Some (y, join_lines body)
                   | None => None
                   end
  | _ => Some ([], t)
  end.

Definition toy_dumps (post : Yaml * string) : option string :=
  Some ("---" ++ nl
        ++ fold_right (fun kv acc => fst kv ++ ": " ++ render_scalar (snd kv) ++ nl ++ acc)
                      "" (fst post)
        ++ "---" ++ nl ++ snd post).

(** A WordPress server: the next post id and the existing post ids. *)
Record WP : Type := mkWP { next_id : Z; posts : list Z }.

Definition answer (code : Z) (v : PyVal) : option Response := Some (mkResponse code (Json v)).

(** [create_status]: the status the server answers a post creation with. *)
Definition wp_transport (create_status : Z) (s : WP) (r : Request) : option Response * WP :=
  match r with
  | RCategorySearch _ => (answer 200 (PList []), s)
  | RCategoryCreate _ => (answer 201 (PDict [("id", PInt 1)]), s)
  | RPost None _ _ _ _ =>
      (answer create_status (PDict [("id", PInt (next_id s)); ("link", PStr "/?p")]),
       mkWP (next_id s + 1) (app (posts s) [next_id s]))
  | RPost (Some (PInt i)) _ _ _ _ =>
      if existsb (Z.eqb i) (posts s) then (answer 200 (PDict [("id", PInt i)]), s)
      else (answer 404 (PDict [("message", PStr "Invalid post ID.")]), s)
  | RPost (Some _) _ _ _ _ => (answer 404 (PDict [("message", PStr "Invalid post ID.")]), s)
  | RSetLanguage _ _ => (answer 200 (PDict []), s)
  | RLinkTranslations _ _ => (answer 200 (PDict [("success", PBool true)]), s)
  | RUploadMedia _ => (answer 201 (PDict [("id", PInt 99)]), s)
  | RSetFeatured _ _ => (answer 200 (PDict []), s)
  end.

Definition no_images (_ : string) : bool := false.
Definition all_encode (_ : PyVal) : bool := true.
Definition no_dirs (_ : string) : bool := false.

(** A note to save a post id into, alone in [/notes]. *)
Definition sample_doc : string :=
  "---" ++ nl ++ "publish: true" ++ nl ++ "title: A" ++ nl ++ "---" ++ nl ++ "body".

Definition save_world (flt : SaveFaults) : @World WP :=
  mkWorld [("/notes/a.md", sample_doc)] (mkWP 1 []) [flt] [].

Fixpoint pad (n : nat) : string :=
  match n with O => "" | S n' => String "x"%char (pad n') end.

(** A note whose front matter starts with a long YAML comment. *)
Definition commented_doc : string :=
  "---" ++ nl ++ "# " ++ pad 120 ++ nl ++ "publish: true" ++ nl ++ "title: A" ++ nl
  ++ "---" ++ nl ++ "body".

(** A note that names post 5, which the server does not have. *)
Definition stale_doc : string :=
  "---" ++ nl ++ "publish: true" ++ nl ++ "title: A" ++ nl ++ "wp-post-id: 5" ++ nl
  ++ "---" ++ nl ++ "body".

Definition notes_world (doc : string) : @World WP :=
  mkWorld [("/notes/a.md", doc)] (mkWP 1 []) [] [].

Definition stale_pair : Pair := mkPair (PStr "A") "/notes/a.md" None (PInt 5) PNone.




(** The temporary file reads back empty. *)
Definition short_read : SaveFaults :=
  mkSaveFaults false false None (Some "") false false false "tmp1.md".

(** The success [print] raises (a file name that the standard output
    cannot encode). *)
Definition print_fault : SaveFaults :=
  mkSaveFaults false false None None false false true "tmp1.md".
End PublishSamples.

(** ** LanguageManager (language_manager.py) *)
Module LanguageManager.
Import PathOps Discovery Publish.

Local Notation "x <- m ;; k" := (bind m (fun x => k))
  (at level 61, m at next level, right associativity).

(** [self.language_posts]: language -> {file_path: post_id}. *)
Definition LangPosts : Type := list (string * list (string * PyVal)).

(** [__init__] *)
Definition init : LangPosts := [("ko", []); ("en", [])].

(** [register_post]: [self.language_posts[language][file_path] = post_id],
    after adding an empty dict for a new language. *)
Definition register_post (lp : LangPosts) (file_path language : string) (post_id : PyVal)
  : LangPosts :=
  let lp := match dict_get String.eqb lp language with
            | Some _ => lp
            | None => dict_set String.eqb lp language []
            end in
  let posts := match dict_get String.eqb lp language with Some d => d | None => [] end in
  dict_set String.eqb lp language (dict_set String.eqb posts file_path post_id).

(** [get_summary]: the two counts it formats ([len] of the [ko] and [en]
    dicts); [None]: a [KeyError]. *)
Definition get_summary (lp : LangPosts) : option (nat * nat) :=
  match dict_get String.eqb lp "ko", dict_get String.eqb lp "en" with
  | Some ko, Some en => Some (length ko, length en)
  | _, _ => None
  end.

(** [find_mirror_file]; [exists] is [os.path.exists]. *)
Definition find_mirror_file (exists_ : string -> bool) (file_path target_language : string)
  : option string :=
  let file_name := basename file_path in
  let file_dir := dirname file_path in
  if String.eqb target_language "en" then
    let en_dir := join file_dir "en" in
    let mirror_path := join en_dir file_name in
    if exists_ mirror_path then Some mirror_path else None
  else if ends_with "/en" file_dir then
    let ko_dir := dirname file_dir in
    let mirror_path := join ko_dir file_name in
    if exists_ mirror_path then Some mirror_path else None
  else None.

(** [get_language_from_path] *)
Definition get_language_from_path (file_path : string) : string :=
  if contains "/english/" file_path then "en" else "ko".

Section Env.
Variable text_len : string -> nat.
Variable fm_loads : string -> option (Yaml * string).
Variable fm_dumps : Yaml * string -> option string.
Context {Server : Type}.

(** [link_mirror_posts]; [self.language_posts['ko']] raises [KeyError]
    when the key is missing.  Its [print] calls are not modelled. *)
Definition link_mirror_posts (lp : LangPosts) (ko_file_path en_file_path : string) : M bool :=
  ko_posts <- lift (dict_get String.eqb lp "ko") ;;
  let ko_post_id := get_or ko_posts ko_file_path PNone in
  en_posts <- lift (dict_get String.eqb lp "en") ;;
  let en_post_id := get_or en_posts en_file_path PNone in
  if negb (truthy ko_post_id && truthy en_post_id) then ret false else
  ko_success <- @save_metadata_to_file text_len fm_loads fm_dumps Server
                  ko_file_path "mirror_post_id" en_post_id ;;
  en_success <- @save_metadata_to_file text_len fm_loads fm_dumps Server
                  en_file_path "mirror_post_id" ko_post_id ;;
  ret (ko_success && en_success).
End Env.
End LanguageManager.

(** ** convert_wiki_links (markdown_processor.py) *)
Module WikiLinks.

Definition dq : string := String "034"%char "".

(** The longest prefix of [s] without [stop], and the rest. *)
Fixpoint span_not (stop : ascii) (s : string) : string * string :=
  match s with
  | EmptyString => ("", "")
  | String c s' =>
      if Ascii.eqb c stop then ("", s)
      else let (g, r) := span_not stop s' in (String c g, r)
  end.

(** [<a href="#\1">\2</a>] *)
Definition link_html (href text : string) : string :=
  "<a href=" ++ dq ++ "#" ++ href ++ dq ++ ">" ++ text ++ "</a>".

(** A match of [\[\[([^\|]+)\|([^\]]+)\]\]] at the start of [s]: the
    replacement and the text after the match.  [[^\|]+] is greedy and a
    shorter run is followed by a character other than [|], so the longest
    run is the only one that can match; likewise for [[^\]]+]. *)
Definition match_piped (s : string) : option (string * string) :=
  match s with
  | String "[" (String "[" r) =>
      match span_not "|" r with
      | (String _ _ as g1, String "|" r1) =>
          match span_not "]" r1 with
          | (String _ _ as g2, String "]" (String "]" rest)) => Some (link_html g1 g2, rest)
          | _ => None
          end
      | _ => None
      end
  | _ => None
  end.

(** A match of [\[\[([^\]]+)\]\]] at the start of [s]. *)
Definition match_plain (s : string) : option (string * string) :=
  match s with
  | String "[" (String "[" r) =>
      match span_not "]" r with
      | (String _ _ as g, String "]" (String "]" rest)) => Some (link_html g g, rest)
      | _ => None
      end
  | _ => None
  end.

(** [re.sub]: scan from the left; at each position replace a match and go
    on after it, or copy one character.  Every match takes at least one
    character, so [String.length s] steps suffice. *)
Fixpoint re_sub (m : string -> option (string * string)) (fuel : nat) (s : string) : string :=
  match fuel with
  | O => s
  | S fuel' =>
      match s with
      | EmptyString => EmptyString
      | String c s' =>
          match m s with
          | Some (out, rest) => out ++ re_sub m fuel' rest
          | None => String c (re_sub m fuel' s')
          end
      end
  end.

Definition sub_all (m : string -> option (string * string)) (s : string) : string :=
  re_sub m (String.length s) s.

(** [convert_wiki_links] *)
Definition convert_wiki_links (html_content : string) : string :=
  sub_all match_plain (sub_all match_piped html_content).
End WikiLinks.

(** ** Facts about the dict model *)
Section DictFacts.
Context {K V : Type} (keq : K -> K -> bool).

Lemma dict_get_In (d : list (K * V)) k v :
  dict_get keq d k = Some v -> exists k', In (k', v) d.
Proof.
  induction d as [|[k' v'] d IH]; simpl; [discriminate|].
  destruct (keq k k'); [intros [= <-]; eauto|].
  intros H; destruct (IH H) as [k'' Hin]; eauto.
Qed.

Lemma dict_set_In (d : list (K * V)) k0 v0 k v :
  In (k, v) (dict_set keq d k0 v0) -> In (k, v) d \/ v = v0.
Proof.
  induction d as [|[k' v'] d IH]; simpl.
  - intros [[= _ <-]|[]]; auto.
  - destruct (keq k0 k'); simpl.
    + intros [[= _ <-]|H]; auto.
    + intros [H|H]; auto. destruct (IH H); auto.
Qed.
End DictFacts.

Lemma dict_set_keys_str {V : Type} (d : list (string * V)) k0 v0 :
  map fst (dict_set String.eqb d k0 v0) =
  if existsb (String.eqb k0) (map fst d) then map fst d else app (map fst d) [k0].
Proof.
  induction d as [|[k' v'] d IH]; simpl; [reflexivity|].
  destruct (String.eqb k0 k'); simpl; [reflexivity|].
  rewrite IH. destruct (existsb (String.eqb k0) (map fst d)); reflexivity.
Qed.

Lemma existsb_eqb_In (x : string) l : existsb (String.eqb x) l = true <-> In x l.
Proof.
  rewrite existsb_exists. split.
  - intros [y [Hy Heq]]. apply String.eqb_eq in Heq. subst; exact Hy.
  - intros H. exists x. split; [exact H | apply String.eqb_refl].
Qed.

Lemma dict_set_keys_In {V : Type} (d : list (string * V)) k0 v0 k :
  In k (map fst (dict_set String.eqb d k0 v0)) <-> In k (map fst d) \/ k = k0.
Proof.
  rewrite dict_set_keys_str.
  destruct (existsb (String.eqb k0) (map fst d)) eqn:E.
  - apply existsb_eqb_In in E. split; [auto|]. intros [H|<-]; auto.
  - rewrite in_app_iff; simpl. intuition.
Qed.

Lemma dict_set_keys_NoDup {V : Type} (d : list (string * V)) k0 v0 :
  NoDup (map fst d) -> NoDup (map fst (dict_set String.eqb d k0 v0)).
Proof.
  intros H. rewrite dict_set_keys_str.
  destruct (existsb (String.eqb k0) (map fst d)) eqn:E; [exact H|].
  apply NoDup_app; auto using NoDup_cons, NoDup_nil.
  intros x Hx [Hk|[]]; subst x. apply (proj2 (existsb_eqb_In k0 _)) in Hx. congruence.
Qed.

Lemma dict_get_str_In {V : Type} (d : list (string * V)) k v :
  dict_get String.eqb d k = Some v -> In (k, v) d.
Proof.
  induction d as [|[k' v'] d IH]; simpl; [discriminate|].
  destruct (String.eqb k k') eqn:E.
  - apply String.eqb_eq in E; subst. intros [= <-]; auto.
  - auto.
Qed.

Lemma dict_get_str_None {V : Type} (d : list (string * V)) k :
  dict_get String.eqb d k = None -> ~ In k (map fst d).
Proof.
  induction d as [|[k' v'] d IH]; simpl; [auto|].
  destruct (String.eqb k k') eqn:E; [discriminate|].
  apply String.eqb_neq in E. intros H [<-|Hin]; [congruence | exact (IH H Hin)].
Qed.

Lemma dict_get_str_keys {V : Type} (d : list (string * V)) k :
  In k (map fst d) -> exists v, dict_get String.eqb d k = Some v.
Proof.
  intros H. destruct (dict_get String.eqb d k) eqn:E; [eauto|].
  exfalso; exact (dict_get_str_None d k E H).
Qed.

Lemma dict_set_In_str {V : Type} (d : list (string * V)) k0 v0 k v :
  In (k, v) (dict_set String.eqb d k0 v0) -> In (k, v) d \/ (k = k0 /\ v = v0).
Proof.
  induction d as [|[k' v'] d IH]; simpl.
  - intros [[= <- <-]|[]]; auto.
  - destruct (String.eqb k0 k') eqn:E; simpl.
    + apply String.eqb_eq in E; subst. intros [[= <- <-]|H]; auto.
    + intros [H|H]; auto. destruct (IH H); auto.
Qed.

Module ResolverFacts.
Import Resolver.

Record IndexInv (load : string -> option Yaml) (seen : list string) (ix : Index) : Prop := {
  inv_vals : forall f m, In (f, m) (all_files ix) -> parse_markdown_file f (load f) = Some m;
  inv_nodup : NoDup (map fst (all_files ix));
  inv_pid : forall k f, In (k, f) (post_id_to_file ix) -> In f (map fst (all_files ix));
  inv_grp : forall g l f, In (g, l) (group_id_to_files ix) -> In f l ->
                          In f (map fst (all_files ix));
  inv_seen : forall f, In f seen -> (exists m, parse_markdown_file f (load f) = Some m) ->
                       In f (map fst (all_files ix))
}.

Lemma index_inv_empty load : IndexInv load [] empty_index.
Proof. constructor; simpl; try contradiction. constructor. Qed.

Lemma index_file_inv load seen ix f ix' :
  IndexInv load seen ix -> index_file load ix f = Some ix' ->
  IndexInv load (app seen [f]) ix'.
Proof.
  intros [Hv Hn Hp Hg Hs]. unfold index_file.
  destruct (parse_markdown_file f (load f)) as [md|] eqn:Hparse.
  2:{ intros [= <-]. constructor; auto.
      intros f' Hin Hel. apply in_app_or in Hin as [Hin|[<-|[]]]; auto.
      destruct Hel as [m Hm]; congruence. }
  set (af := dict_set String.eqb (all_files ix) f md).
  assert (Haf_keys : forall k, In k (map fst af) <-> In k (map fst (all_files ix)) \/ k = f)
    by (intro k; apply dict_set_keys_In).
  assert (Hv' : forall f0 m, In (f0, m) af -> parse_markdown_file f0 (load f0) = Some m).
  { intros f0 m Hin. apply dict_set_In_str in Hin as [Hin|[-> ->]]; auto. }
  assert (Hn' : NoDup (map fst af)) by (apply dict_set_keys_NoDup; exact Hn).
  assert (Hs' : forall f0, In f0 (app seen [f]) ->
                (exists m, parse_markdown_file f0 (load f0) = Some m) -> In f0 (map fst af)).
  { intros f0 Hin Hel. apply Haf_keys. apply in_app_or in Hin as [Hin|[<-|[]]]; auto. }
  assert (Hold : forall k, In k (map fst (all_files ix)) -> In k (map fst af))
    by (intros k Hk; apply Haf_keys; auto).
  assert (Hf : In f (map fst af)) by (apply Haf_keys; auto).
  destruct (truthy (m_wp_post_id md)) eqn:Ht;
    [destruct (hashable (m_wp_post_id md)); [|discriminate]|];
  (destruct (truthy (m_group_id md)); [destruct (hashable (m_group_id md)); [|discriminate]|]);
  intros [= <-]; constructor; simpl; auto;
  (* post ids *)
  try solve [intros k f0 Hin; apply dict_set_In in Hin as [Hin| ->];
             [apply Hold; eapply Hp; eauto|exact Hf]];
  try solve [intros k f0 Hin; apply Hold; eapply Hp; eauto];
  (* groups *)
  try solve [intros g l f0 Hin Hl; apply Hold; eapply Hg; eauto].
  all: intros g l f0 Hin Hl.
  all: apply dict_set_In in Hin as [Hin| ->].
  all: try solve [destruct (dict_get py_eqb (group_id_to_files ix) (m_group_id md)) eqn:Eg;
            [apply Hold; eapply Hg; eauto
            |apply dict_set_In in Hin as [Hin| ->]; [apply Hold; eapply Hg; eauto|contradiction]]].
  all: apply in_app_or in Hl as [Hl|[<-|[]]]; [|exact Hf].
  all: destruct (dict_get py_eqb (group_id_to_files ix) (m_group_id md)) eqn:Eg.
  all: match goal with
       | H : In _ (match ?e with Some l => l | None => [] end) |- _ =>
           destruct e as [cur|] eqn:Ec; [|contradiction]
       end.
  all: apply dict_get_In in Ec as [g' Hc].
  all: try solve [apply Hold; eapply Hg; eauto].
  all: apply dict_set_In in Hc as [Hc|Hc]; [apply Hold; eapply Hg; eauto|subst; contradiction].
Qed.

Lemma build_index_inv load files : forall seen ix ix',
  IndexInv load seen ix -> build_index load ix files = Some ix' ->
  IndexInv load (app seen files) ix'.
Proof.
  induction files as [|f fs IH]; simpl; intros seen ix ix' Hinv H.
  - injection H as <-. rewrite app_nil_r. exact Hinv.
  - destruct (index_file load ix f) as [ix1|] eqn:E; [|discriminate].
    replace (app seen (f :: fs)) with (app (app seen [f]) fs)
      by (rewrite <- app_assoc; reflexivity).
    eapply IH; [eapply index_file_inv; eauto | exact H].
Qed.

End ResolverFacts.

Module PairingFacts.
Import Resolver ResolverFacts.

Section Loop.
Variable dir_exists : string -> bool.
Variable ix : Index.
Let K := map fst (all_files ix).
Hypothesis Hpid : forall k f, In (k, f) (post_id_to_file ix) -> In f K.
Hypothesis Hgrp : forall g l f, In (g, l) (group_id_to_files ix) -> In f l -> In f K.

Lemma first_group_candidate_In ko processed l c :
  first_group_candidate ko processed l = Some c -> In c l.
Proof.
  induction l as [|x l IH]; simpl; [discriminate|].
  destruct (negb (String.eqb x ko) && is_en x && negb (mem x processed)).
  - intros [= <-]; auto.
  - intros H; right; auto.
Qed.

Lemma strategies_in_K processed ko md s2 :
  strategy_mirror ix md (strategy_group ix processed ko md) = Some s2 ->
  forall e, fst (strategy_folder dir_exists ix processed ko s2) = Some e -> In e K.
Proof.
  intros Hm.
  assert (H1 : forall e, fst (strategy_group ix processed ko md) = Some e -> In e K).
  { unfold strategy_group. intros e.
    destruct (truthy (m_group_id md)); [|discriminate].
    destruct (dict_get py_eqb (group_id_to_files ix) (m_group_id md)) as [gl|] eqn:Eg;
      [|discriminate].
    destruct (first_group_candidate ko processed gl) as [c|] eqn:Ec; [|discriminate].
    simpl. intros [= <-]. apply dict_get_In in Eg as [g' Hg'].
    eapply Hgrp; [exact Hg'|]. eapply first_group_candidate_In; eauto. }
  assert (H2 : forall e, fst s2 = Some e -> In e K).
  { revert Hm. unfold strategy_mirror.
    destruct (no_file (fst (strategy_group ix processed ko md))); [|intros [= <-]; exact H1].
    destruct (truthy (m_mirror_post_id md)); [|intros [= <-]; exact H1].
    destruct (hashable (m_mirror_post_id md)); [|discriminate].
    destruct (dict_get py_eqb (post_id_to_file ix) (m_mirror_post_id md)) as [f|] eqn:Ef;
      [|intros [= <-]; exact H1].
    intros [= <-] e; simpl; intros [= <-].
    apply dict_get_In in Ef as [k Hk]. eapply Hpid; eauto. }
  unfold strategy_folder.
  destruct (no_file (fst s2)); [|exact H2].
  destruct (dir_exists (PathOps.join (PathOps.dirname ko) "english")); [|exact H2].
  match goal with |- context [dict_get String.eqb (all_files ix) ?c] =>
    destruct (dict_get String.eqb (all_files ix) c) as [m|] eqn:Ec end; [|exact H2].
  destruct (negb (mem _ processed)); [|exact H2].
  intros e; simpl; intros [= <-].
  apply dict_get_str_In in Ec. apply (in_map fst) in Ec. exact Ec.
Qed.

Record LoopInv (done_ processed : list string) (pairs : list Pair) : Prop := {
  li_proc : processed = flat_map pair_files pairs;
  li_pairs : forall p, In p pairs ->
             In (ko_file p) K /\ is_en (ko_file p) = false /\
             (forall e, en_file p = Some e -> In e K);
  li_nodup : NoDup (map ko_file pairs);
  li_cover : forall f, In f done_ -> is_en f = false -> In f processed
}.

Lemma mem_In x l : mem x l = true <-> In x l.
Proof. unfold mem. apply existsb_eqb_In. Qed.

Lemma pair_step_inv done_ processed pairs ko md processed' pairs' :
  In ko K -> LoopInv done_ processed pairs ->
  pair_step dir_exists ix (processed, pairs) (ko, md) = Some (processed', pairs') ->
  LoopInv (app done_ [ko]) processed' pairs'.
Proof.
  intros Hko [Hp Hps Hnd Hcov]. unfold pair_step.
  destruct (mem ko processed) eqn:Em.
  { intros [= <- <-]. constructor; auto.
    intros f Hf Hen. apply in_app_or in Hf as [Hf|[<-|[]]]; auto.
    apply mem_In; exact Em. }
  destruct (is_en ko) eqn:Ee.
  { intros [= <- <-]. constructor; auto.
    intros f Hf Hen. apply in_app_or in Hf as [Hf|[<-|[]]]; auto. congruence. }
  destruct (strategy_mirror ix md (strategy_group ix processed ko md)) as [s2|] eqn:Es;
    [|discriminate].
  pose proof (strategies_in_K processed ko md s2 Es) as Hin.
  destruct (strategy_folder dir_exists ix processed ko s2) as [en eid] eqn:Ef.
  try rewrite Ef in Hin; simpl in Hin.
  intros [= <- <-].
  set (p := mkPair (m_title md) ko en (m_wp_post_id md) eid).
  assert (Hpf : (match en with
                 | Some e => if negb (String.eqb e "") then app (app processed [ko]) [e]
                             else app processed [ko]
                 | None => app processed [ko]
                 end) = app processed (pair_files p)).
  { unfold pair_files; simpl. destruct en as [e|]; [destruct (negb (String.eqb e ""))|];
    rewrite <- ?app_assoc; reflexivity. }
  rewrite Hpf. constructor.
  - rewrite flat_map_app, Hp; simpl; rewrite app_nil_r; reflexivity.
  - intros q Hq. apply in_app_or in Hq as [Hq|[<-|[]]]; auto.
  - rewrite map_app. apply NoDup_app; [exact Hnd|simpl; constructor; [intros []|constructor]|].
    intros x Hx [Hxk|[]]; simpl in Hxk; subst x.
    assert (In ko processed).
    { rewrite Hp. apply in_map_iff in Hx as [q [Hq1 Hq2]].
      apply in_flat_map. exists q; split; auto. unfold pair_files; rewrite Hq1; left; auto. }
    apply mem_In in H; congruence.
  - intros f Hf Hen. apply in_or_app.
    apply in_app_or in Hf as [Hf|[<-|[]]]; [left; auto|right; left; reflexivity].
Qed.

Lemma pair_loop_inv items : forall done_ processed pairs res,
  (forall x, In x items -> In (fst x) K) ->
  LoopInv done_ processed pairs ->
  pair_loop dir_exists ix (processed, pairs) items = Some res ->
  LoopInv (app done_ (map fst items)) (fst res) (snd res).
Proof.
  induction items as [|[ko md] items IH]; intros done_ processed pairs res Hk Hinv H; cbn [pair_loop] in H.
  - injection H as <-. simpl. rewrite app_nil_r. exact Hinv.
  - destruct (pair_step dir_exists ix (processed, pairs) (ko, md)) as [[pr1 ps1]|] eqn:E;
      [|discriminate].
    replace (app done_ (map fst ((ko, md) :: items))) with (app (app done_ [ko]) (map fst items))
      by (rewrite <- app_assoc; reflexivity).
    eapply IH; [intros x Hx; apply Hk; right; exact Hx| |exact H].
    eapply pair_step_inv; [apply (Hk (ko, md)); left; reflexivity|exact Hinv|exact E].
Qed.
End Loop.

(** What [collect_language_pairs] guarantees by construction. *)
Lemma collect_inv dir_exists load files pairs :
  collect_language_pairs dir_exists load files = Some pairs ->
  (forall p, In p pairs ->
     eligible load (ko_file p) /\ is_en (ko_file p) = false /\
     (forall e, en_file p = Some e -> eligible load e)) /\
  NoDup (map ko_file pairs) /\
  (forall f, In f files -> eligible load f -> is_en f = false ->
     In f (flat_map pair_files pairs)).
Proof.
  unfold collect_language_pairs.
  destruct (build_index load empty_index files) as [ix|] eqn:Eb; [|discriminate].
  destruct (pair_loop dir_exists ix ([], []) (all_files ix)) as [[pr ps]|] eqn:El;
    [|discriminate].
  intros [= <-].
  pose proof (build_index_inv load files [] empty_index ix (index_inv_empty load) Eb)
    as [Hv Hn Hp Hg Hs].
  assert (Hel : forall f, In f (map fst (all_files ix)) -> eligible load f).
  { intros f Hf. apply in_map_iff in Hf as [[f' m] [Hf' Hin]]; simpl in Hf'; subst f'.
    exists m. eapply Hv; eauto. }
  assert (Hinit : LoopInv ix [] [] []).
  { constructor; simpl; try contradiction; auto. constructor. }
  pose proof (pair_loop_inv dir_exists ix Hp Hg (all_files ix) [] [] [] (pr, ps)
                (fun x Hx => in_map fst _ x Hx) Hinit El) as [Hpr Hps Hnd Hcov].
  simpl in *. split; [|split].
  - intros p Hin. destruct (Hps p Hin) as (H1 & H2 & H3). repeat split; auto.
  - exact Hnd.
  - intros f Hf Helf Hen. rewrite <- Hpr. apply Hcov; auto.
Qed.

End PairingFacts.

(** * Claims about the pairing resolver *)
Module PairingClaims.
Import Resolver ResolverFacts PairingFacts Samples.

Lemma is_en_nonempty c : is_en c = true -> c <> "".
Proof. intros H ->. discriminate H. Qed.

Lemma first_group_candidate_app ko processed pre c post :
  negb (String.eqb c ko) && is_en c && negb (mem c processed) = true ->
  (forall x, In x pre -> x = ko \/ is_en x = false \/ mem x processed = true) ->
  first_group_candidate ko processed (app pre (c :: post)) = Some c.
Proof.
  intros Hc Hpre. induction pre as [|x pre IH]; simpl.
  - rewrite Hc. reflexivity.
  - destruct (Hpre x (or_introl eq_refl)) as [-> | [-> | ->]].
    + rewrite String.eqb_refl. simpl. apply IH. intros y Hy. apply Hpre. right; exact Hy.
    + rewrite andb_false_r. simpl. apply IH. intros y Hy. apply Hpre. right; exact Hy.
    + rewrite andb_false_r. apply IH. intros y Hy. apply Hpre. right; exact Hy.
Qed.

(** C1 (corrected). Every pair [collect_language_pairs] returns has an
    eligible primary outside the English folders and, if any, an eligible
    secondary; no file is the primary of two pairs; and every eligible file
    outside the English folders appears in some pair, as primary or as
    secondary. English-folder files appear only as secondaries, so one that
    no primary claims is in no pair. *)
Theorem collect_language_pairs_cover dir_exists load files pairs :
  collect_language_pairs dir_exists load files = Some pairs ->
  (forall p, In p pairs ->
     eligible load (ko_file p) /\ is_en (ko_file p) = false /\
     (forall e, en_file p = Some e -> eligible load e)) /\
  NoDup (map ko_file pairs) /\
  (forall f, In f files -> eligible load f -> is_en f = false ->
     exists p, In p pairs /\ (ko_file p = f \/ en_file p = Some f)).
Proof.
  intros H. destruct (collect_inv dir_exists load files pairs H) as (H1 & H2 & H3).
  split; [exact H1|split; [exact H2|]].
  intros f Hf Hel Hen. specialize (H3 f Hf Hel Hen).
  apply in_flat_map in H3 as [p [Hp Hin]]. exists p. split; [exact Hp|].
  unfold pair_files in Hin. destruct Hin as [Hin|Hin]; [left; exact Hin|right].
  destruct (en_file p) as [e|]; [|contradiction].
  destruct (negb (String.eqb e "")); [|contradiction].
  destruct Hin as [<-|[]]; reflexivity.
Qed.

Lemma collect_language_pairs_cover_witness :
  collect_language_pairs (fun _ => true) load_a files_a =
    Some [mkPair (PStr "a") "/r/a.md" (Some "/r/english/b.md") PNone PNone] /\
  NoDup (map ko_file [mkPair (PStr "a") "/r/a.md" (Some "/r/english/b.md") PNone PNone]).
Proof.
  assert (H : collect_language_pairs (fun _ => true) load_a files_a =
    Some [mkPair (PStr "a") "/r/a.md" (Some "/r/english/b.md") PNone PNone])
    by (vm_compute; reflexivity).
  split; [exact H|].
  exact (proj1 (proj2 (collect_language_pairs_cover _ _ _ _ H))).
Defined.

(** C1 counterexample: an eligible note in an English folder that no
    Korean note claims is in no pair at all. *)
Lemma collect_language_pairs_orphan :
  exists pairs,
    collect_language_pairs (fun _ => true) load_a ["/r/en/c.md"] = Some pairs /\
    eligible load_a "/r/en/c.md" /\
    occurrences "/r/en/c.md" pairs = 0%nat.
Proof.
  exists []. split; [vm_compute; reflexivity|]. split; [|reflexivity].
  eexists. vm_compute. reflexivity.
Qed.

(** Strategy 2 does not consult [processed_files]: a note mirroring its
    own post id is paired with itself. *)
Remark mirror_self_pair :
  collect_language_pairs (fun _ => true) load_m ["/r/s.md"] =
    Some [mkPair (PStr "s") "/r/s.md" (Some "/r/s.md") (PInt 9) (PInt 9)].
Proof. vm_compute. reflexivity. Qed.

(** C5. When a primary has an unconsumed group-id partner in an English
    folder, that partner is its secondary, even when a positional twin
    [dirname/english/basename] that is a different, unconsumed eligible file
    exists; among the group's candidates the first in the group list
    (discovery order) is taken. *)
Theorem group_id_match_preferred dir_exists ix processed pairs ko md gfiles pre c post :
  mem ko processed = false -> is_en ko = false ->
  truthy (m_group_id md) = true ->
  dict_get py_eqb (group_id_to_files ix) (m_group_id md) = Some gfiles ->
  gfiles = app pre (c :: post) ->
  c <> ko -> is_en c = true -> mem c processed = false ->
  (forall x, In x pre -> x = ko \/ is_en x = false \/ mem x processed = true) ->
  let twin := PathOps.join (PathOps.join (PathOps.dirname ko) "english")
                           (PathOps.basename ko) in
  dir_exists (PathOps.join (PathOps.dirname ko) "english") = true ->
  In twin (map fst (all_files ix)) -> mem twin processed = false -> twin <> c ->
  pair_step dir_exists ix (processed, pairs) (ko, md) =
    Some (app (app processed [ko]) [c],
          app pairs [mkPair (m_title md) ko (Some c) (m_wp_post_id md) (wp_id_of ix c)]).
Proof.
  intros Hko Heko Hg Hgf -> Hcko Hec Hmc Hpre twin _ _ _ _.
  assert (Hc : negb (String.eqb c ko) && is_en c && negb (mem c processed) = true).
  { rewrite Hec, Hmc. apply String.eqb_neq in Hcko. rewrite Hcko. reflexivity. }
  assert (Hs : strategy_group ix processed ko md = (Some c, wp_id_of ix c)).
  { unfold strategy_group.
    rewrite Hg, Hgf, (first_group_candidate_app ko processed pre c post Hc Hpre).
    reflexivity. }
  assert (Hce : String.eqb c "" = false)
    by (apply String.eqb_neq; apply is_en_nonempty; exact Hec).
  assert (Hn : no_file (Some c) = false) by exact Hce.
  unfold pair_step. rewrite Hko, Heko, Hs.
  unfold strategy_mirror. cbv [fst]. rewrite Hn.
  unfold strategy_folder. cbv [fst]. rewrite Hn.
  rewrite Hce. reflexivity.
Qed.

Lemma group_id_match_preferred_witness :
  pair_step (fun _ => true) index_a ([], []) ("/r/a.md", md_a) =
    Some (["/r/a.md"; "/r/english/b.md"],
          [mkPair (PStr "a") "/r/a.md" (Some "/r/english/b.md") PNone PNone]).
Proof.
  refine (group_id_match_preferred (fun _ => true) index_a [] [] "/r/a.md" md_a
            ["/r/a.md"; "/r/english/b.md"] ["/r/a.md"] "/r/english/b.md" []
            _ _ _ _ _ _ _ _ _ _ _ _ _).
  all: try (vm_compute; reflexivity).
  - discriminate.
  - intros x [<-|[]]. left; reflexivity.
  - vm_compute. right; right; left; reflexivity.
  - discriminate.
Defined.

(** C9. A file whose front matter has no [publish] key, or a false one, is
    dropped by [parse_markdown_file], is in none of the resolver's indices and
    in no pair. *)
Theorem unpublished_never_paired dir_exists load files f y :
  load f = Some y ->
  (dict_get String.eqb y "publish" = None \/
   exists v, dict_get String.eqb y "publish" = Some v /\ truthy v = false) ->
  parse_markdown_file f (load f) = None /\
  (forall ix, build_index load empty_index files = Some ix ->
     ~ In f (map fst (all_files ix)) /\
     (forall k, ~ In (k, f) (post_id_to_file ix)) /\
     (forall g l, In (g, l) (group_id_to_files ix) -> ~ In f l)) /\
  (forall pairs, collect_language_pairs dir_exists load files = Some pairs ->
     forall p, In p pairs -> ko_file p <> f /\ en_file p <> Some f).
Proof.
  intros Hl Hpub.
  assert (Hnone : parse_markdown_file f (load f) = None).
  { rewrite Hl. unfold parse_markdown_file.
    destruct Hpub as [-> | [v [-> Hv]]]; [reflexivity|]. rewrite Hv. reflexivity. }
  assert (Hne : ~ eligible load f) by (intros [m Hm]; congruence).
  split; [exact Hnone|split].
  - intros ix Hb.
    pose proof (build_index_inv load files [] empty_index ix (index_inv_empty load) Hb)
      as [Hv Hn Hp Hg Hs].
    assert (Hk : ~ In f (map fst (all_files ix))).
    { intros Hin. apply in_map_iff in Hin as [[f' m] [Hf' Hin]]; simpl in Hf'; subst f'.
      apply Hne. exists m. eapply Hv; eauto. }
    split; [exact Hk|split].
    + intros k Hin. exact (Hk (Hp _ _ Hin)).
    + intros g l Hin Hl'. exact (Hk (Hg _ _ _ Hin Hl')).
  - intros pairs Hc p Hp.
    destruct (collect_inv dir_exists load files pairs Hc) as [H1 _].
    destruct (H1 p Hp) as (Hk & _ & He). split.
    + intros Heq. rewrite Heq in Hk. exact (Hne Hk).
    + intros Heq. exact (Hne (He f Heq)).
Qed.

Lemma unpublished_never_paired_witness :
  parse_markdown_file "/r/d.md" (load_a "/r/d.md") = None.
Proof.
  refine (proj1 (unpublished_never_paired (fun _ => true) load_a files_a "/r/d.md"
                   [("publish", PBool false)] eq_refl _)).
  right. exists (PBool false). split; reflexivity.
Defined.

(** C10. When strategy 1 finds nothing and the primary's [mirror_post_id]
    is a key of [post_id_to_file], the secondary is the file stored there,
    whatever [processed_files] holds and whatever folder that file is in. *)
Theorem mirror_post_id_choice dir_exists ix processed pairs ko md f :
  mem ko processed = false -> is_en ko = false ->
  fst (strategy_group ix processed ko md) = None ->
  truthy (m_mirror_post_id md) = true ->
  dict_get py_eqb (post_id_to_file ix) (m_mirror_post_id md) = Some f ->
  f <> "" ->
  pair_step dir_exists ix (processed, pairs) (ko, md) =
    Some (app (app processed [ko]) [f],
          app pairs [mkPair (m_title md) ko (Some f) (m_wp_post_id md) (wp_id_of ix f)]).
Proof.
  intros Hko Heko Hg Hm Hf Hne.
  assert (Hs : strategy_group ix processed ko md = (None, PNone)).
  { revert Hg. unfold strategy_group.
    destruct (truthy (m_group_id md)); [|reflexivity].
    destruct (dict_get py_eqb (group_id_to_files ix) (m_group_id md)); [|reflexivity].
    destruct (first_group_candidate ko processed l); [discriminate|reflexivity]. }
  assert (Hh : hashable (m_mirror_post_id md) = true).
  { revert Hf. destruct (m_mirror_post_id md); try reflexivity;
    (induction (post_id_to_file ix) as [|[k0 v0] rest IH]; simpl; [discriminate|]; exact IH). }
  unfold pair_step. rewrite Hko, Heko, Hs.
  unfold strategy_mirror, no_file; simpl. rewrite Hm, Hh, Hf.
  unfold strategy_folder, no_file, wp_id_of; simpl.
  apply String.eqb_neq in Hne. rewrite Hne. simpl.
  destruct (dict_get String.eqb (all_files ix) f); rewrite ?Hne; reflexivity.
Qed.

(** [/r/x.md] is already consumed and lies outside the English folders;
    strategy 2 still picks it for [/r/k.md]. *)
Lemma mirror_post_id_choice_witness :
  mem "/r/x.md" ["/r/x.md"] = true /\ is_en "/r/x.md" = false /\
  pair_step (fun _ => true) index_m (["/r/x.md"], []) ("/r/k.md", md_k) =
    Some (["/r/x.md"; "/r/k.md"; "/r/x.md"],
          [mkPair (PStr "k") "/r/k.md" (Some "/r/x.md") PNone (PInt 7)]).
Proof.
  split; [reflexivity|split; [reflexivity|]].
  refine (mirror_post_id_choice (fun _ => true) index_m ["/r/x.md"] [] "/r/k.md" md_k
            "/r/x.md" _ _ _ _ _ _).
  all: try (vm_compute; reflexivity).
  discriminate.
Defined.

End PairingClaims.

Module DiscoveryFacts.
Import PathOps Discovery.

Lemma string_compare_trans_le a b c :
  String.compare a b <> Gt -> String.compare b c <> Gt -> String.compare a c <> Gt.
Proof.
  revert b c. induction a as [|x a IH]; intros [|y b] [|z c]; simpl; try congruence.
  unfold Ascii.compare.
  destruct (N.compare_spec (N_of_ascii x) (N_of_ascii y)) as [Hxy|Hxy|Hxy];
  destruct (N.compare_spec (N_of_ascii y) (N_of_ascii z)) as [Hyz|Hyz|Hyz];
  destruct (N.compare_spec (N_of_ascii x) (N_of_ascii z)) as [Hxz|Hxz|Hxz];
  try congruence; try lia.
  apply IH.
Qed.

Lemma leb_trans a b c : String.leb a b = true -> String.leb b c = true -> String.leb a c = true.
Proof.
  unfold String.leb.
  destruct (String.compare a b) eqn:E1; try discriminate;
  destruct (String.compare b c) eqn:E2; try discriminate;
  destruct (String.compare a c) eqn:E3; try reflexivity;
  exfalso; apply (string_compare_trans_le a b c); congruence.
Qed.


Lemma insert_sorted_perm x l : Permutation (x :: l) (insert_sorted x l).
Proof.
  induction l as [|y l IH]; simpl; [reflexivity|].
  destruct (String.leb x y); [reflexivity|].
  rewrite perm_swap. constructor. exact IH.
Qed.

Lemma insert_sorted_sorted x l : Sorted le_str l -> Sorted le_str (insert_sorted x l).
Proof.
  induction 1 as [|y l Hs IH Hhd]; simpl; [repeat constructor|].
  destruct (String.leb x y) eqn:E; [constructor; [constructor; auto|constructor; exact E]|].
  assert (Hyx : le_str y x)
    by (unfold le_str; destruct (String.leb_total x y); congruence).
  constructor; [exact IH|].
  destruct l as [|z l]; simpl; [constructor; exact Hyx|].
  destruct (String.leb x z); constructor; [exact Hyx|].
  inversion Hhd; assumption.
Qed.

Lemma sort_perm l : Permutation l (sort l).
Proof.
  induction l as [|x l IH]; simpl; [reflexivity|].
  rewrite <- insert_sorted_perm. constructor. exact IH.
Qed.

Lemma sort_sorted l : Sorted le_str (sort l).
Proof. induction l; simpl; [constructor|]. apply insert_sorted_sorted; assumption. Qed.

Lemma sorted_perm_unique l1 : forall l2,
  Sorted le_str l1 -> Sorted le_str l2 -> Permutation l1 l2 -> l1 = l2.
Proof.
  assert (Htr : Relations_1.Transitive le_str) by (intros a b c; apply leb_trans).
  induction l1 as [|a l1 IH]; intros [|b l2] H1 H2 Hp.
  - reflexivity.
  - apply Permutation_nil in Hp; discriminate.
  - symmetry in Hp; apply Permutation_nil in Hp; discriminate.
  - apply Sorted_StronglySorted in H1; [|exact Htr].
    apply Sorted_StronglySorted in H2; [|exact Htr].
    assert (Hab : a = b).
    { assert (Ha : In a (b :: l2)) by (apply (Permutation_in a Hp); left; reflexivity).
      assert (Hb : In b (a :: l1))
        by (apply (Permutation_in b (Permutation_sym Hp)); left; reflexivity).
      destruct Ha as [Ha|Ha]; [congruence|].
      destruct Hb as [Hb|Hb]; [congruence|].
      apply StronglySorted_inv in H1 as [_ H1]. apply StronglySorted_inv in H2 as [_ H2].
      rewrite Forall_forall in H1, H2.
      apply String.leb_antisym; [apply H1; exact Hb|apply H2; exact Ha]. }
    subst b. f_equal. apply IH.
    + apply StronglySorted_Sorted. inversion H1; assumption.
    + apply StronglySorted_Sorted. inversion H2; assumption.
    + apply Permutation_cons_inv in Hp. exact Hp.
Qed.

Lemma sort_perm_eq l1 l2 : Permutation l1 l2 -> sort l1 = sort l2.
Proof.
  intros Hp. apply sorted_perm_unique; try apply sort_sorted.
  rewrite <- !sort_perm. exact Hp.
Qed.


Lemma level_files_In cs ds f :
  In (ds, f) (level_files cs) -> ds = [] /\ In (EFile f) cs /\ keep_file f = true.
Proof.
  unfold level_files. rewrite in_flat_map. intros [e [He Hin]].
  destruct e as [n|n kids]; [|contradiction].
  destruct (keep_file n) eqn:Ek; [|contradiction].
  destruct Hin as [[= <- <-]|[]]. auto.
Qed.

Lemma existsb_false_notin (n : string) excl :
  existsb (String.eqb n) excl = false -> ~ In n excl.
Proof. intros H Hin. apply existsb_eqb_In in Hin. congruence. Qed.

Lemma walk_sub_sound excl e : forall ds f,
  In (ds, f) (walk_sub excl e) ->
  exists n kids ds', e = EDir n kids /\ ds = n :: ds' /\ ~ In n excl /\
    InTree kids ds' f /\ keep_file f = true /\ kept excl ds'.
Proof.
  induction e as [n|n kids IH] using entry_ind'; simpl; [contradiction|].
  intros ds f.
  destruct (existsb (String.eqb n) excl) eqn:Ex; [contradiction|].
  intros Hin. apply in_map_iff in Hin as [[ds' f'] [Heq Hin]]. injection Heq as <- <-.
  exists n, kids, ds'. repeat split; auto using existsb_false_notin.
  all: apply in_app_or in Hin as [Hin|Hin];
       [apply level_files_In in Hin as (-> & Hf & Hk)
       |apply in_flat_map in Hin as [c [Hc Hin]];
        rewrite Forall_forall in IH;
        destruct (IH c Hc ds' f' Hin) as (n' & kids' & ds'' & -> & -> & Hn' & Ht & Hk & Hkept)].
  all: try solve [constructor; exact Hf | exact Hk | constructor].
  - apply in_sub with kids'; assumption.
  - constructor; assumption.
Qed.

Lemma walk_entries_sound excl cs ds f :
  In (ds, f) (walk_entries excl cs) -> InTree cs ds f /\ keep_file f = true /\ kept excl ds.
Proof.
  unfold walk_entries. intros Hin. apply in_app_or in Hin as [Hin|Hin].
  - apply level_files_In in Hin as (-> & Hf & Hk). repeat split; [constructor; exact Hf|exact Hk|constructor].
  - apply in_flat_map in Hin as [c [Hc Hin]].
    destruct (walk_sub_sound excl c ds f Hin) as (n & kids & ds' & -> & -> & Hn & Ht & Hk & Hkept).
    repeat split; [apply in_sub with kids; assumption|exact Hk|constructor; assumption].
Qed.

Lemma walk_entries_same_tree excl c1 c2 :
  same_tree c1 c2 -> Permutation (walk_entries excl c1) (walk_entries excl c2).
Proof.
  induction 1 as [c1 c2 Hp|pre n k1 k2 post H IH|c1 c2 c3 _ IH1 _ IH2].
  - unfold walk_entries, level_files.
    apply Permutation_app; apply Permutation_flat_map; exact Hp.
  - unfold walk_entries, level_files.
    rewrite !flat_map_app. simpl.
    apply Permutation_app; [reflexivity|].
    apply Permutation_app; [reflexivity|].
    apply Permutation_app; [|reflexivity].
    destruct (existsb (String.eqb n) excl); [reflexivity|].
    apply Permutation_map. exact IH.
  - etransitivity; eassumption.
Qed.

Lemma starts_with_ends_with_keep f :
  keep_file f = true -> ends_with ".md" f = true /\ starts_with "." f = false.
Proof.
  unfold keep_file. intros H. apply andb_true_iff in H as [H1 H2].
  split; [exact H1|]. destruct (starts_with "." f); [discriminate|reflexivity].
Qed.

Lemma walk_entries_complete excl cs ds f :
  InTree cs ds f -> keep_file f = true -> kept excl ds -> In (ds, f) (walk_entries excl cs).
Proof.
  intros Ht Hk. induction Ht as [cs f Hf|cs n kids ds f Hd Ht IH]; intros Hkept;
    unfold walk_entries; apply in_or_app.
  - left. unfold level_files. apply in_flat_map. exists (EFile f). split; [exact Hf|].
    rewrite Hk. left. reflexivity.
  - right. apply in_flat_map. exists (EDir n kids). split; [exact Hd|].
    inversion Hkept as [|? ? Hn Hkept']; subst. simpl.
    destruct (existsb (String.eqb n) excl) eqn:Ex.
    + exfalso. apply Hn. apply existsb_exists in Ex as [x [Hx Heq]].
      apply String.eqb_eq in Heq. subst. exact Hx.
    + apply in_map_iff. exists (ds, f). split; [reflexivity|]. apply IH; [exact Hk|exact Hkept'].
Qed.

End DiscoveryFacts.

Module DiscoveryClaims.
Import PathOps Discovery DiscoveryFacts.

(** C8 (as discovery works: the exclusion applies to the directories below
    the root).  [get_markdown_files] returns its paths sorted by code point
    order; each path is [root] joined with subdirectories [ds] and a file
    name [f] found there, [f] ends in [".md"] and does not start with
    ["."], and no directory of [ds] is in the exclusion list (the default
    list when none is given); every such file is returned; and listing the
    tree's entries in any other order gives the same result. *)
Theorem get_markdown_files_spec top children exclude_folders :
  let excl := match exclude_folders with Some e => e | None => default_excludes end in
  let r := get_markdown_files top children exclude_folders in
  Sorted le_str r /\
  (forall p, In p r <-> exists ds f, p = render top (ds, f) /\ InTree children ds f /\
      ends_with ".md" f = true /\ starts_with "." f = false /\ kept excl ds) /\
  (forall children', same_tree children children' ->
      get_markdown_files top children' exclude_folders = r).
Proof.
  intros excl r. split; [|split].
  - apply sort_sorted.
  - intros p. unfold r, get_markdown_files. fold excl. split.
    + intros Hin. apply Permutation_in with (l' := map (render top) (walk_entries excl children)) in Hin;
        [|symmetry; apply sort_perm].
      apply in_map_iff in Hin as [[ds f] [<- Hin]].
      destruct (walk_entries_sound excl children ds f Hin) as (Ht & Hk & Hkept).
      destruct (starts_with_ends_with_keep f Hk) as [He Hs].
      exists ds, f. auto 6.
    + intros (ds & f & -> & Ht & He & Hs & Hkept).
      apply Permutation_in with (l := map (render top) (walk_entries excl children));
        [apply sort_perm|].
      apply in_map. apply walk_entries_complete; [exact Ht| |exact Hkept].
      unfold keep_file. rewrite He, Hs. reflexivity.
  - intros children' Hst. unfold r, get_markdown_files. fold excl.
    apply sort_perm_eq. apply Permutation_map.
    symmetry. apply walk_entries_same_tree. exact Hst.
Qed.

Lemma get_markdown_files_spec_witness :
  same_tree tree_b (rev tree_b) /\
  get_markdown_files "/r" tree_b None = ["/r/a.md"; "/r/b.md"; "/r/english/a.md"; "/r/english/z.md"] /\
  get_markdown_files "/r" (rev tree_b) None = get_markdown_files "/r" tree_b None.
Proof.
  assert (Hst : same_tree tree_b (rev tree_b)).
  { apply st_perm. apply Permutation_rev. }
  split; [exact Hst|split; [vm_compute; reflexivity|]].
  apply (get_markdown_files_spec "/r" tree_b None). exact Hst.
Defined.

(** The root itself is never tested against the exclusion list: a root
    named [drafts] has its notes returned under [/drafts/]. *)
Lemma get_markdown_files_root_excluded :
  In "drafts" default_excludes /\
  get_markdown_files "/notes/drafts" [EFile "x.md"] None = ["/notes/drafts/x.md"] /\
  contains "/drafts/" "/notes/drafts/x.md" = true.
Proof. vm_compute. repeat split; auto. Qed.

End DiscoveryClaims.

Module PublishFacts.
Import PathOps Resolver Publish.

Section Keeps.
Context {Server : Type}.
(** A relation between the world before and after an action, kept by
    every action of a computation. *)
Context (R : @World Server -> @World Server -> Prop) {HR : PreOrder R}.

Definition keeps {A} (m : M A) : Prop := forall w, R w (snd (m w)).

Lemma keeps_ret {A} (x : A) : keeps (ret x).
Proof. intros w. reflexivity. Qed.

Lemma keeps_raise {A} : keeps (@raise _ A).
Proof. intros w. reflexivity. Qed.

Lemma keeps_lift {A} (o : option A) : keeps (lift o).
Proof. destruct o; intros w; reflexivity. Qed.

Lemma keeps_gets {A} (f : World -> A) : keeps (gets f).
Proof. intros w. reflexivity. Qed.

Lemma keeps_bind {A B} (m : M A) (k : A -> M B) :
  keeps m -> (forall x, keeps (k x)) -> keeps (bind m k).
Proof.
  intros Hm Hk w. unfold bind. specialize (Hm w).
  destruct (m w) as [[x|] w1]; simpl in *; [|exact Hm].
  etransitivity; [exact Hm|apply Hk].
Qed.

Lemma keeps_catch {A} (m h : M A) : keeps m -> keeps h -> keeps (catch m h).
Proof.
  intros Hm Hh w. unfold catch. specialize (Hm w).
  destruct (m w) as [[x|] w1]; simpl in *; [exact Hm|].
  etransitivity; [exact Hm|apply Hh].
Qed.
End Keeps.


(** Split a computation into its actions, case by case. *)
Ltac keeps_split leaf :=
  repeat first
    [ progress cbv beta zeta
    | solve [leaf]
    | apply keeps_bind; try typeclasses eauto; [| intros ?]
    | apply keeps_catch; try typeclasses eauto
    | match goal with |- PreOrder _ => typeclasses eauto end
    | solve [first [apply keeps_ret | apply keeps_raise | apply keeps_lift | apply keeps_gets];
             typeclasses eauto]
    | match goal with
      | |- keeps _ (if ?b then _ else _) => destruct b
      | |- keeps _ (match ?x with _ => _ end) => destruct x eqn:?
      end ].

(** Leaves the files and the pending save faults alone. *)
Definition same_disk {Server} (w w' : @World Server) : Prop :=
  w_fs w' = w_fs w /\ w_faults w' = w_faults w.

#[export] Instance same_disk_preorder {Server} : PreOrder (@same_disk Server).
Proof.
  split; [intros w; split; reflexivity|].
  intros a b c [H1 H2] [H3 H4]. split; congruence.
Qed.

(** Appends to the log only events satisfying [P]. *)
Definition logs {Server} (P : Event -> Prop) (w w' : @World Server) : Prop :=
  exists new, w_log w' = app (w_log w) new /\ Forall P new.

#[export] Instance logs_preorder {Server} P : PreOrder (@logs Server P).
Proof.
  split.
  - intros w. exists []. rewrite app_nil_r. split; [reflexivity|constructor].
  - intros a b c [n1 [H1 F1]] [n2 [H2 F2]]. exists (app n1 n2).
    rewrite H2, H1, app_assoc. split; [reflexivity|]. apply Forall_app; auto.
Qed.

Lemma logs_weaken {Server} (P Q : Event -> Prop) (w w' : @World Server) :
  (forall e, P e -> Q e) -> logs P w w' -> logs Q w w'.
Proof.
  intros HPQ [n [H F]]. exists n. split; [exact H|]. eapply Forall_impl; eauto.
Qed.

Lemma keeps_weaken_logs {Server A} (P Q : Event -> Prop) (m : @M Server A) :
  (forall e, P e -> Q e) -> keeps (logs P) m -> keeps (logs Q) m.
Proof. intros HPQ Hm w. eapply logs_weaken; [exact HPQ|apply Hm]. Qed.

Section Env.
Variable text_len : string -> nat.
Variable fm_loads : string -> option (Yaml * string).
Variable fm_dumps : Yaml * string -> option string.
Context {Server : Type}.
Variable transport : Server -> Request -> option Response * Server.
Variable image_exists : string -> bool.
Variable encodes : PyVal -> bool.

Lemma http_same_disk r : keeps same_disk (http transport r).
Proof.
  intros w. unfold http. destruct (transport (w_server w) r). split; reflexivity.
Qed.

Lemma http_logs (P : Event -> Prop) r : P (ERequest r) -> keeps (logs P) (http transport r).
Proof.
  intros HP w. unfold http. destruct (transport (w_server w) r).
  exists [ERequest r]. split; [reflexivity|]. constructor; [exact HP|constructor].
Qed.


(** Requests other than a post creation or update. *)
Definition side_request (e : Event) : Prop :=
  match e with
  | ERequest (RPost _ _ _ _ _) => False
  | ERequest _ => True
  | ESave _ _ _ _ => False
  end.

(** The requests [publish_post] sends for [path]: its one post request
    goes to [posts/{post_id}] when [post_id] is truthy, to [posts]
    otherwise. *)
Definition publish_request (path : string) (post_id : PyVal) (e : Event) : Prop :=
  match e with
  | ERequest (RPost t _ _ path' _) => path' = path /\ t = post_target post_id
  | ERequest _ => True
  | ESave _ _ _ _ => False
  end.

Ltac http_step :=
  first [ apply http_same_disk
        | apply http_logs; simpl; auto ].

Ltac method_keeps := keeps_split http_step.


Lemma get_or_create_category_logs c :
  keeps (logs side_request) (get_or_create_category transport encodes c).
Proof. unfold get_or_create_category, json, py_get, py_item, py_first, print_line. method_keeps. Qed.


Lemma set_polylang_language_logs i l :
  keeps (logs side_request) (set_polylang_language transport i l).
Proof. unfold set_polylang_language. method_keeps. Qed.


Lemma publish_post_logs t l path i c :
  keeps (logs (publish_request path i)) (publish_post transport encodes t l path i c).
Proof.
  unfold publish_post, json, py_get, print_line. method_keeps.
  all: eapply (keeps_weaken_logs side_request);
    [intros [[]|] ?; simpl in *; tauto
    |first [apply get_or_create_category_logs | apply set_polylang_language_logs]].
Qed.

Lemma link_translations_same_disk a b : keeps same_disk (link_translations transport a b).
Proof. unfold link_translations, json, py_get. method_keeps. Qed.

Lemma link_translations_logs a b : keeps (logs side_request) (link_translations transport a b).
Proof. unfold link_translations, json, py_get. method_keeps. Qed.

Lemma set_featured_image_same_disk i f :
  keeps same_disk (set_featured_image transport image_exists i f).
Proof. unfold set_featured_image, json, py_get. method_keeps. Qed.

Lemma set_featured_image_logs i f :
  keeps (logs side_request) (set_featured_image transport image_exists i f).
Proof. unfold set_featured_image, json, py_get. method_keeps. Qed.

Lemma set_cover_logs i f st :
  keeps (logs side_request) (set_cover transport image_exists i f st).
Proof. unfold set_cover. method_keeps. apply set_featured_image_logs. Qed.

Lemma set_fs_logs P f : keeps (logs P) (@set_fs Server f).
Proof. intros w. exists []. rewrite app_nil_r. split; [reflexivity|constructor]. Qed.

Lemma next_faults_logs P : keeps (logs P) (@next_faults Server).
Proof.
  intros w. exists []. rewrite app_nil_r. unfold next_faults.
  destruct (w_faults w); (split; [reflexivity|constructor]).
Qed.

Lemma log_logs (P : Event -> Prop) e : P e -> keeps (logs P) (@log Server e).
Proof.
  intros HP w. exists [e]. split; [reflexivity|]. constructor; [exact HP|constructor].
Qed.

(** [save_metadata_to_file] records one event, its own outcome. *)
Definition save_event (path : string) (e : Event) : Prop :=
  match e with ESave p _ _ _ => p = path | ERequest _ => False end.

Lemma save_metadata_to_file_logs path k v :
  keeps (logs (save_event path))
        (@save_metadata_to_file text_len fm_loads fm_dumps Server path k v).
Proof.
  unfold save_metadata_to_file, read_file, write_file, unlink, rename, path_exists.
  method_keeps;
    first [apply set_fs_logs | apply next_faults_logs | apply log_logs; reflexivity].
Qed.

(** The post requests of one pair's processing: each side's goes to
    [posts/{id}] with that side's existing id when it is truthy. *)
Definition pair_request (p : Pair) (e : Event) : Prop :=
  match e with
  | ERequest (RPost t _ _ path _) =>
      (path = ko_file p /\ t = post_target (ko_existing_id p))
      \/ (en_file p = Some path /\ t = post_target (en_existing_id p))
  | _ => True
  end.

Lemma process_pair_logs p st :
  keeps (logs (pair_request p))
        (process_pair text_len fm_loads fm_dumps transport image_exists encodes p st).
Proof.
  unfold process_pair, process_en, parse_now.
  keeps_split ltac:(first
    [ eapply keeps_weaken_logs; [|apply publish_post_logs];
      intros [[]|] ?; simpl in *; intuition congruence
    | eapply keeps_weaken_logs; [|apply save_metadata_to_file_logs];
      intros [[]|] ?; simpl in *; tauto
    | eapply keeps_weaken_logs; [|apply set_cover_logs];
      intros [[]|] ?; simpl in *; tauto
    | eapply keeps_weaken_logs; [|apply link_translations_logs];
      intros [[]|] ?; simpl in *; tauto ]).
Qed.

Definition pairs_request (pairs : list Pair) (e : Event) : Prop :=
  match e with
  | ERequest (RPost _ _ _ _ _) => exists p, In p pairs /\ pair_request p e
  | _ => True
  end.

Lemma process_loop_logs pairs : forall st,
  keeps (logs (pairs_request pairs))
        (process_loop text_len fm_loads fm_dumps transport image_exists encodes pairs st).
Proof.
  induction pairs as [|p ps IH]; intros st; simpl.
  - apply keeps_ret. typeclasses eauto.
  - apply keeps_bind; [typeclasses eauto| |].
    + eapply keeps_weaken_logs; [|apply process_pair_logs].
      intros [[]|] He; simpl in *; eauto.
    + intros st'. eapply keeps_weaken_logs; [|apply IH].
      intros [[]|] He; simpl in *; auto.
      destruct He as [q [Hq He]]. eauto.
Qed.

Lemma set_polylang_language_total i l (w : World) :
  exists w', set_polylang_language transport i l w = (Some tt, w').
Proof.
  unfold set_polylang_language, catch, bind, http, ret.
  destruct (transport (w_server w) (RSetLanguage i l)) as [[x|] srv]; eauto.
Qed.


End Env.
End PublishFacts.

(** The existing ids [collect_language_pairs] puts in a pair are the
    [wp-post-id]s its files' front matter holds. *)
Module PairIds.
Import PathOps Resolver ResolverFacts PairingFacts.

Lemma dict_get_str_NoDup {V : Type} (d : list (string * V)) k v :
  NoDup (map fst d) -> In (k, v) d -> dict_get String.eqb d k = Some v.
Proof.
  induction d as [|[k' v'] d IH]; simpl; [contradiction|].
  intros Hnd Hin. inversion Hnd as [|? ? Hk Hnd']; subst.
  destruct (String.eqb k k') eqn:E.
  - apply String.eqb_eq in E; subst. destruct Hin as [[= ->]|Hin]; [reflexivity|].
    exfalso. apply Hk. apply in_map_iff. exists (k', v). auto.
  - destruct Hin as [[= -> ->]|Hin]; [rewrite String.eqb_refl in E; discriminate|].
    auto.
Qed.

Section Ids.
Variable dir_exists : string -> bool.
Variable ix : Index.
Hypothesis Hpid : forall k f, In (k, f) (post_id_to_file ix) -> In f (map fst (all_files ix)).
Hypothesis Hgrp : forall g l f, In (g, l) (group_id_to_files ix) -> In f l ->
                                In f (map fst (all_files ix)).
Hypothesis Hnodup : NoDup (map fst (all_files ix)).

(** The chosen secondary, if any, is indexed and its id is its own. *)
Definition good_choice (s : option string * PyVal) : Prop :=
  forall e, fst s = Some e ->
    exists m, dict_get String.eqb (all_files ix) e = Some m /\ snd s = m_wp_post_id m.

Definition good_pair (p : Pair) : Prop :=
  (exists m, dict_get String.eqb (all_files ix) (ko_file p) = Some m /\
             ko_existing_id p = m_wp_post_id m) /\
  good_choice (en_file p, en_existing_id p).

Lemma strategy_group_good processed ko md : good_choice (strategy_group ix processed ko md).
Proof.
  unfold strategy_group, good_choice. intros e.
  destruct (truthy (m_group_id md)); [|discriminate].
  destruct (dict_get py_eqb (group_id_to_files ix) (m_group_id md)) as [gl|] eqn:Eg;
    [|discriminate].
  destruct (first_group_candidate ko processed gl) as [c|] eqn:Ec; [|discriminate].
  simpl. intros [= <-].
  apply dict_get_In in Eg as [g' Hg].
  pose proof (Hgrp _ _ _ Hg (first_group_candidate_In _ _ _ _ Ec)) as Hc.
  destruct (dict_get_str_keys _ _ Hc) as [m Hm].
  exists m. unfold wp_id_of. rewrite Hm. auto.
Qed.

Lemma strategy_mirror_good md s s' :
  good_choice s -> strategy_mirror ix md s = Some s' -> good_choice s'.
Proof.
  unfold strategy_mirror. intros Hs.
  destruct (no_file (fst s)); [|intros [= <-]; exact Hs].
  destruct (truthy (m_mirror_post_id md)); [|intros [= <-]; exact Hs].
  destruct (hashable (m_mirror_post_id md)); [|discriminate].
  destruct (dict_get py_eqb (post_id_to_file ix) (m_mirror_post_id md)) as [f|] eqn:Ef;
    [|intros [= <-]; exact Hs].
  intros [= <-]. intros e [= <-].
  apply dict_get_In in Ef as [k Hk].
  destruct (dict_get_str_keys _ _ (Hpid _ _ Hk)) as [m Hm].
  exists m. simpl. rewrite Hm. auto.
Qed.

Lemma strategy_folder_good processed ko s :
  good_choice s -> good_choice (strategy_folder dir_exists ix processed ko s).
Proof.
  unfold strategy_folder. intros Hs.
  destruct (no_file (fst s)); [|exact Hs].
  destruct (dir_exists (join (dirname ko) "english")); [|exact Hs].
  destruct (dict_get String.eqb (all_files ix) (join (join (dirname ko) "english") (basename ko)))
    as [m|] eqn:Em; [|exact Hs].
  destruct (negb (mem (join (join (dirname ko) "english") (basename ko)) processed)); [|exact Hs].
  intros e [= <-]. exists m. auto.
Qed.

Lemma pair_loop_good items : forall processed pairs processed' pairs',
  (forall it, In it items -> In it (all_files ix)) ->
  Forall good_pair pairs ->
  pair_loop dir_exists ix (processed, pairs) items = Some (processed', pairs') ->
  Forall good_pair pairs'.
Proof.
  induction items as [|[ko md] items IH]; intros processed pairs processed' pairs' Hit Hg H.
  - simpl in H. injection H as <- <-. exact Hg.
  - cbn [pair_loop] in H.
    destruct (pair_step dir_exists ix (processed, pairs) (ko, md)) as [[pr1 ps1]|] eqn:Es;
      [|discriminate].
    apply (IH pr1 ps1 processed' pairs'); [intros it Hin; apply Hit; right; exact Hin| |exact H].
    unfold pair_step in Es.
    destruct (mem ko processed); [injection Es as <- <-; exact Hg|].
    destruct (is_en ko); [injection Es as <- <-; exact Hg|].
    destruct (strategy_mirror ix md (strategy_group ix processed ko md)) as [s2|] eqn:Em;
      [|discriminate].
    pose proof (strategy_folder_good processed ko s2
                  (strategy_mirror_good md _ _ (strategy_group_good processed ko md) Em)) as Hf.
    destruct (strategy_folder dir_exists ix processed ko s2) as [en id] eqn:Ef.
    injection Es as <- <-. apply Forall_app. split; [exact Hg|].
    constructor; [|constructor]. split; [|exact Hf].
    exists md. split; [|reflexivity]. simpl.
    apply dict_get_str_NoDup; [exact Hnodup|]. apply Hit. left. reflexivity.
Qed.
End Ids.

Lemma collect_ids dir_exists load files pairs :
  collect_language_pairs dir_exists load files = Some pairs ->
  forall p, In p pairs ->
    (exists m, parse_markdown_file (ko_file p) (load (ko_file p)) = Some m /\
               ko_existing_id p = m_wp_post_id m) /\
    (forall e, en_file p = Some e ->
       exists m, parse_markdown_file e (load e) = Some m /\ en_existing_id p = m_wp_post_id m).
Proof.
  unfold collect_language_pairs.
  destruct (build_index load empty_index files) as [ix|] eqn:Eb; [|discriminate].
  destruct (pair_loop dir_exists ix ([], []) (all_files ix)) as [[pr ps]|] eqn:El;
    [|discriminate].
  intros [= <-].
  pose proof (build_index_inv load files [] empty_index ix (index_inv_empty load) Eb) as Hinv.
  pose proof (pair_loop_good dir_exists ix (inv_pid _ _ _ Hinv) (inv_grp _ _ _ Hinv)
                (inv_nodup _ _ _ Hinv) (all_files ix) [] [] pr ps (fun it H => H)
                (Forall_nil _) El) as Hg.
  intros p Hp. rewrite Forall_forall in Hg. destruct (Hg p Hp) as [[m [Hm Hid]] He].
  split.
  - exists m. split; [|exact Hid].
    apply (inv_vals _ _ _ Hinv). apply dict_get_str_In. exact Hm.
  - intros e Hen. destruct (He e Hen) as [m' [Hm' Hid']].
    exists m'. split; [|exact Hid'].
    apply (inv_vals _ _ _ Hinv). apply dict_get_str_In. exact Hm'.
Qed.
End PairIds.

Module SaveFacts.
Import PathOps Publish.

Lemma dict_get_set_same {V} (d : list (string * V)) k v :
  dict_get String.eqb (dict_set String.eqb d k v) k = Some v.
Proof.
  induction d as [|[k' v'] d IH]; simpl; [rewrite String.eqb_refl; reflexivity|].
  destruct (String.eqb k k') eqn:E; simpl; rewrite E; [reflexivity|exact IH].
Qed.

Lemma dict_get_set_other {V} (d : list (string * V)) k k0 v :
  k0 <> k -> dict_get String.eqb (dict_set String.eqb d k v) k0 = dict_get String.eqb d k0.
Proof.
  intros Hne. apply String.eqb_neq in Hne.
  induction d as [|[k' v'] d IH]; simpl.
  - rewrite Hne. reflexivity.
  - destruct (String.eqb k k') eqn:E; simpl.
    + apply String.eqb_eq in E. subst k'. rewrite Hne. reflexivity.
    + rewrite IH. reflexivity.
Qed.

Lemma fs_remove_get (d : list (string * string)) t :
  dict_get String.eqb (fs_remove t d) t = None.
Proof.
  induction d as [|[k v] d IH]; simpl; [reflexivity|].
  destruct (String.eqb k t) eqn:E; simpl.
  - exact IH.
  - rewrite String.eqb_sym, E. exact IH.
Qed.

Lemma fs_remove_get_other (d : list (string * string)) t k :
  k <> t -> dict_get String.eqb (fs_remove t d) k = dict_get String.eqb d k.
Proof.
  intros Hne. apply String.eqb_neq in Hne.
  induction d as [|[k' v] d IH]; simpl; [reflexivity|].
  destruct (String.eqb k' t) eqn:E; simpl.
  - apply String.eqb_eq in E. subst k'. rewrite Hne. exact IH.
  - rewrite IH. reflexivity.
Qed.

(** Creating a fresh file, writing it and removing it leaves the
    directory as it was. *)
Lemma fs_remove_fresh (d : list (string * string)) t a b :
  dict_get String.eqb d t = None ->
  fs_remove t (dict_set String.eqb (dict_set String.eqb d t a) t b) = d.
Proof.
  induction d as [|[k v] d IH]; simpl; intros H.
  - rewrite String.eqb_refl. simpl. rewrite String.eqb_refl. reflexivity.
  - destruct (String.eqb t k) eqn:E; [discriminate|]. simpl. rewrite E. simpl.
    rewrite String.eqb_sym, E. simpl. rewrite IH; [reflexivity|exact H].
Qed.

Ltac get_set :=
  repeat match goal with
  | |- context [dict_get String.eqb (dict_set String.eqb ?d ?k ?v) ?k] =>
      rewrite (dict_get_set_same d k v)
  end; cbn [w_fs w_server w_faults w_log fst snd].

Section Save.
Variable text_len : string -> nat.
Variable fm_loads : string -> option (Yaml * string).
Variable fm_dumps : Yaml * string -> option string.
Context {Server : Type}.

Lemma save_cases file_path key value (w : @World Server) :
  let flt := current_faults w in
  let temp := join (dirname file_path) (tmp_name flt) in
  let '(r, w') := save_metadata_to_file text_len fm_loads fm_dumps file_path key value w in
  (w_fs w' = w_fs w /\ r = Some false) \/
  exists original post new_content,
    let written := match f_stored flt with Some t => t | None => new_content end in
    f_read flt = false /\ fs_get w file_path = Some original /\
    fm_loads original = Some post /\
    fm_dumps (dict_set String.eqb (fst post) key value, snd post) = Some new_content /\
    too_short text_len original new_content = false /\
    fs_get w temp = None /\ f_create flt = false /\ f_write flt = None /\
    f_read_temp flt = false /\ too_short text_len original written = false /\
    f_move flt = false /\
    w_fs w' = fs_remove temp (dict_set String.eqb
                (dict_set String.eqb (dict_set String.eqb (w_fs w) temp "") temp written)
                file_path written) /\
    r = Some (negb (f_print flt)).
Proof.
  intros flt temp.
  assert (Hn : next_faults w = (Some flt, mkWorld (w_fs w) (w_server w) (tl (w_faults w)) (w_log w))).
  { unfold next_faults, flt, current_faults. destruct w as [fs srv [|f rest] lg]; reflexivity. }
  unfold save_metadata_to_file. unfold bind at 1. rewrite Hn. fold flt temp.
  cbv beta iota zeta delta [bind catch read_file lift ret raise gets path_exists write_file
    set_fs modify unlink rename log fs_get].
  simpl.
  destruct (f_read flt) eqn:Er; simpl; [left; split; reflexivity|].
  destruct (dict_get String.eqb (w_fs w) file_path) as [original|] eqn:Eo; simpl;
    [|left; split; reflexivity].
  destruct (fm_loads original) as [post|] eqn:El; simpl; [|left; split; reflexivity].
  destruct (fm_dumps (dict_set String.eqb (fst post) key value, snd post)) as [new_content|]
    eqn:Ed; simpl; [|left; split; reflexivity].
  destruct (too_short text_len original new_content) eqn:Et1; simpl;
    [left; split; reflexivity|].
  destruct (dict_get String.eqb (w_fs w) temp) as [x|] eqn:Etmp; simpl;
    [rewrite orb_true_r; simpl; left; split; reflexivity|].
  rewrite orb_false_r.
  destruct (f_create flt) eqn:Ec; simpl; [left; split; reflexivity|].
  set (written := match f_stored flt with Some t => t | None => new_content end).
  destruct (f_write flt) as [partial|] eqn:Ew; simpl.
  { get_set. simpl. get_set. left. split; [|reflexivity].
    apply fs_remove_fresh. exact Etmp. }
  destruct (f_read_temp flt) eqn:Ert; simpl.
  { get_set. simpl. get_set. left. split; [|reflexivity].
    apply fs_remove_fresh. exact Etmp. }
  get_set. simpl. get_set.
  destruct (too_short text_len original written) eqn:Et2; simpl.
  { get_set. simpl. get_set. left. split; [|reflexivity].
    apply fs_remove_fresh. exact Etmp. }
  destruct (f_move flt) eqn:Em; simpl.
  { get_set. simpl. get_set. left. split; [|reflexivity].
    apply fs_remove_fresh. exact Etmp. }
  get_set. simpl. get_set.
  destruct (f_print flt) eqn:Ep; simpl.
  - rewrite fs_remove_get. simpl.
    right. exists original, post, new_content. repeat split; assumption.
  - right. exists original, post, new_content. repeat split; assumption.
Qed.

(** Unless the final [print] raises, a save that returns [False] leaves
    the directory as it was. *)
Lemma save_false_keeps_fs file_path key value (w : @World Server) w' :
  f_print (current_faults w) = false ->
  save_metadata_to_file text_len fm_loads fm_dumps file_path key value w = (Some false, w') ->
  w_fs w' = w_fs w.
Proof.
  intros Hp Heq. pose proof (save_cases file_path key value w) as H.
  cbv zeta in H. rewrite Heq in H.
  destruct H as [[Hfs _]|(o & p & n & H)]; [exact Hfs|].
  rewrite Hp in H. destruct H as (_ & _ & _ & _ & _ & _ & _ & _ & _ & _ & _ & _ & Hr).
  discriminate Hr.
Qed.
End Save.
End SaveFacts.

Module PublishClaims.
Import PathOps Resolver Publish PublishFacts PairIds PublishSamples.

Section Claims.
Variable text_len : string -> nat.
Variable fm_loads : string -> option (Yaml * string).
Variable fm_dumps : Yaml * string -> option string.
Context {Server : Type}.
Variable transport : Server -> Request -> option Response * Server.
Variable image_exists : string -> bool.
Variable encodes : PyVal -> bool.

(** Every post request of a run is for a document whose front matter,
    when the run started, held a [wp-post-id]: the request goes to
    [posts/{id}] with that id when it is truthy, and to [posts] (a
    creation) when it is not. *)
Lemma run_post_targets dir_exists files (w : World) r w' :
  run text_len fm_loads fm_dumps transport image_exists encodes dir_exists files w = (r, w') ->
  exists new, w_log w' = app (w_log w) new /\
    forall t title lang path cats, In (ERequest (RPost t title lang path cats)) new ->
      exists m, parse_markdown_file path (load_fs fm_loads (w_fs w) path) = Some m /\
                t = post_target (m_wp_post_id m).
Proof.
  unfold run, bind, gets, lift. cbn.
  destruct (collect_language_pairs dir_exists (load_fs fm_loads (w_fs w)) files)
    as [pairs|] eqn:Ec.
  - intros H. unfold ret in H.
    pose proof (process_loop_logs text_len fm_loads fm_dumps transport image_exists encodes pairs
                  (mkStats (length pairs) 0 0 0 0 0 0 0) w) as Hl.
    unfold process_pairs in H. rewrite H in Hl. simpl in Hl.
    destruct Hl as [new [Hlog Hnew]]. exists new. split; [exact Hlog|].
    intros t title lang path cats Hin.
    rewrite Forall_forall in Hnew. specialize (Hnew _ Hin). simpl in Hnew.
    destruct Hnew as [p [Hp Hreq]].
    destruct (collect_ids _ _ _ _ Ec p Hp) as [[m [Hm Hid]] Hen].
    destruct Hreq as [[-> ->]|[He ->]].
    + exists m. rewrite Hid. auto.
    + destruct (Hen path He) as [m' [Hm' Hid']]. exists m'. rewrite Hid'. auto.
  - intros [= <- <-]. exists []. rewrite app_nil_r. split; [reflexivity|].
    intros ? ? ? ? ? [].
Qed.

(** C2 (as the code works: the second run follows the ids the first run
    left in the files).  Of two runs in a row, each one's post requests
    are fixed by the front matter at its own start: the second run posts
    to [posts/{id}] for a document whose [wp-post-id] after the first run
    is the truthy [id], and creates a new post ([posts]) for a document
    whose [wp-post-id] is then missing or falsy. *)
Theorem run_twice_post_targets dir_exists files (w0 : World) r1 w1 r2 w2 :
  run text_len fm_loads fm_dumps transport image_exists encodes dir_exists files w0 = (r1, w1) ->
  run text_len fm_loads fm_dumps transport image_exists encodes dir_exists files w1 = (r2, w2) ->
  exists new1 new2,
    w_log w1 = app (w_log w0) new1 /\ w_log w2 = app (w_log w1) new2 /\
    (forall t title lang path cats, In (ERequest (RPost t title lang path cats)) new1 ->
       exists m, parse_markdown_file path (load_fs fm_loads (w_fs w0) path) = Some m /\
                 t = post_target (m_wp_post_id m)) /\
    (forall t title lang path cats, In (ERequest (RPost t title lang path cats)) new2 ->
       exists m, parse_markdown_file path (load_fs fm_loads (w_fs w1) path) = Some m /\
                 t = post_target (m_wp_post_id m)).
Proof.
  intros H1 H2.
  destruct (run_post_targets dir_exists files w0 r1 w1 H1) as [new1 [Hl1 Ht1]].
  destruct (run_post_targets dir_exists files w1 r2 w2 H2) as [new2 [Hl2 Ht2]].
  exists new1, new2. auto.
Qed.


(** C6 (as the code works: the success statuses are 200 and 201).
    Once the category lookup has returned (it raises only on a truthy
    category that is not a string), [publish_post] returns, and it
    reports success exactly when its post request gets a response with
    status 200 or 201 whose body is a JSON object, and the success line
    it prints, with the title and the new id, can be written. Any other
    status, 2xx and 3xx included, a body that is not a JSON object, a
    request that raises, or a title or id that stdout cannot encode, is
    reported as a failure. *)
Theorem publish_post_success title language path post_id category_name (w : World) cid w1 :
  (if truthy category_name then get_or_create_category transport encodes category_name
   else ret PNone) w = (Some cid, w1) ->
  exists r w', publish_post transport encodes title language path post_id category_name w = (Some r, w') /\
    (success r = true <->
     exists code kvs srv,
       transport (w_server w1)
         (RPost (post_target post_id) title language path
                (if truthy cid then Some cid else None))
       = (Some (mkResponse code (Json (PDict kvs))), srv) /\
       (code = 200 \/ code = 201) /\
       encodes title = true /\ encodes (get_or kvs "id" PNone) = true).
Proof.
  intros Hc. unfold publish_post. cbv zeta. unfold bind at 1. rewrite Hc.
  unfold catch, bind, http.
  destruct (transport (w_server w1)
              (RPost (post_target post_id) title language path
                     (if truthy cid then Some cid else None))) as [[[code b]|] srv] eqn:Et.
  - unfold ok_status. cbn [status_code body].
    destruct ((code =? 200) || (code =? 201)) eqn:Eok.
    + destruct b as [|v]; unfold json; cbn [body].
      * unfold raise, ret. do 2 eexists. split; [reflexivity|].
        split; [discriminate|]. intros (c' & kvs & srv' & Ht & _). congruence.
      * destruct v as [| | | | |kvs]; unfold py_get, raise, ret;
          try (do 2 eexists; split; [reflexivity|];
               split; [discriminate|]; intros (c' & kvs' & srv' & Ht & _); congruence).
        unfold print_line.
        destruct (encodes title && encodes (get_or kvs "id" PNone)) eqn:Ee; cbv beta iota;
          unfold raise, ret.
        2: { do 2 eexists. split; [reflexivity|]. split; [discriminate|].
             intros (c' & kvs' & srv' & Ht & _ & E1 & E2). injection Ht as _ <- _.
             rewrite E1, E2 in Ee. discriminate Ee. }
        destruct (set_polylang_language_total transport
                    (get_or kvs "id" PNone)
                    (if String.eqb language "ko" then "ko_KR"
                     else if String.eqb language "en" then "en_US" else language)
                    (mkWorld (w_fs w1) srv (w_faults w1)
                             (app (w_log w1) [ERequest (RPost (post_target post_id) title
                                language path (if truthy cid then Some cid else None))])))
          as [w2 Hw2].
        rewrite Hw2. do 2 eexists. split; [reflexivity|]. split; [|reflexivity].
        intros _. exists code, kvs, srv. split; [reflexivity|].
        apply andb_true_iff in Ee as [E1 E2]. split; [|auto].
        apply orb_true_iff in Eok as [E|E]; apply Z.eqb_eq in E; auto.
    + destruct b as [|v]; unfold json; cbn [body];
        [|destruct v as [| | | | |kvs]]; unfold py_get, raise, ret;
        do 2 eexists; (split; [reflexivity|]);
        (split; [discriminate|]); intros (c' & kvs' & srv' & Ht & Hc' & _);
        injection Ht as -> _ _; destruct Hc' as [-> | ->]; discriminate.
  - unfold raise, ret. do 2 eexists. split; [reflexivity|].
    split; [discriminate|]. intros (c' & kvs & srv' & Ht & _). discriminate.
Qed.
End Claims.

(** The first run posts the note as a new post.  Its id is not saved:
    [frontmatter] drops the long YAML comment, so the new front matter
    fails the length check and [save_metadata_to_file] returns [False],
    which [process_pairs] ignores.  The second run, on the unchanged
    note and server, creates a second post. *)
Lemma run_twice_creates_again :
  let w1 := snd (run String.length toy_loads toy_dumps (wp_transport 201) no_images all_encode no_dirs
                     ["/notes/a.md"] (notes_world commented_doc)) in
  let w2 := snd (run String.length toy_loads toy_dumps (wp_transport 201) no_images all_encode no_dirs
                     ["/notes/a.md"] w1) in
  posts (w_server w1) = [1] /\ posts (w_server w2) = [1; 2] /\
  skipn (length (w_log w1)) (w_log w2) =
    [ERequest (RPost None (PStr "A") "ko" "/notes/a.md" None);
     ERequest (RSetLanguage (PInt 2) "ko_KR");
     ESave "/notes/a.md" "wp-post-id" (PInt 2) false].
Proof. vm_compute. split; [reflexivity|split; reflexivity]. Qed.

(** The note gets its id on the first run; the second run on the
    unchanged server updates post 1 and creates none. *)
Lemma run_twice_post_targets_witness :
  let w0 := notes_world sample_doc in
  let R1 := run String.length toy_loads toy_dumps (wp_transport 201) no_images all_encode no_dirs
              ["/notes/a.md"] w0 in
  let R2 := run String.length toy_loads toy_dumps (wp_transport 201) no_images all_encode no_dirs
              ["/notes/a.md"] (snd R1) in
  (exists new1 new2,
    w_log (snd R1) = app (w_log w0) new1 /\ w_log (snd R2) = app (w_log (snd R1)) new2 /\
    (forall t title lang path cats, In (ERequest (RPost t title lang path cats)) new1 ->
       exists m, parse_markdown_file path (load_fs toy_loads (w_fs w0) path) = Some m /\
                 t = post_target (m_wp_post_id m)) /\
    (forall t title lang path cats, In (ERequest (RPost t title lang path cats)) new2 ->
       exists m, parse_markdown_file path (load_fs toy_loads (w_fs (snd R1)) path) = Some m /\
                 t = post_target (m_wp_post_id m))) /\
  posts (w_server (snd R2)) = posts (w_server (snd R1)) /\
  skipn (length (w_log (snd R1))) (w_log (snd R2)) =
    [ERequest (RPost (Some (PInt 1)) (PStr "A") "ko" "/notes/a.md" None);
     ERequest (RSetLanguage (PInt 1) "ko_KR");
     ESave "/notes/a.md" "wp-post-id" (PInt 1) true].
Proof.
  intros w0 R1 R2. split; [|split; vm_compute; reflexivity].
  apply (run_twice_post_targets String.length toy_loads toy_dumps (wp_transport 201) no_images
           all_encode no_dirs ["/notes/a.md"] w0 (fst R1) (snd R1) (fst R2) (snd R2));
    vm_compute; reflexivity.
Defined.


(** A server that accepts the creation with 202 Accepted: the post is
    created, and [publish_post] reports a failure. *)
Lemma publish_post_202_fails :
  let w := notes_world sample_doc in
  let P := publish_post (wp_transport 202) all_encode (PStr "A") "ko" "/notes/a.md" PNone PNone w in
  fst (wp_transport 202 (w_server w) (RPost None (PStr "A") "ko" "/notes/a.md" None))
    = answer 202 (PDict [("id", PInt 1); ("link", PStr "/?p")]) /\
  fst P = Some (mkPublishResult false PNone) /\ posts (w_server (snd P)) = [1].
Proof. vm_compute. split; [reflexivity|split; reflexivity]. Qed.

Lemma publish_post_success_witness :
  let w := notes_world sample_doc in
  exists r w', publish_post (wp_transport 201) all_encode (PStr "A") "ko" "/notes/a.md" PNone PNone w
               = (Some r, w') /\
    (success r = true <->
     exists code kvs srv,
       wp_transport 201 (w_server w)
         (RPost (post_target PNone) (PStr "A") "ko" "/notes/a.md"
                (if truthy PNone then Some PNone else None))
       = (Some (mkResponse code (Json (PDict kvs))), srv) /\
       (code = 200 \/ code = 201) /\
       all_encode (PStr "A") = true /\ all_encode (get_or kvs "id" PNone) = true).
Proof.
  intros w.
  apply (publish_post_success (wp_transport 201) all_encode (PStr "A") "ko" "/notes/a.md" PNone PNone
           w PNone w).
  reflexivity.
Defined.
End PublishClaims.

Module SaveClaims.
Import PathOps Publish PublishSamples SaveFacts.

Section Claims.
Variable text_len : string -> nat.
Variable fm_loads : string -> option (Yaml * string).
Variable fm_dumps : Yaml * string -> option string.
Context {Server : Type}.

(** C7.  [save_metadata_to_file] applies the length check
    ([too_short]: empty, or more than 100 characters shorter than the
    original) twice.  When the serialized content fails it, the call
    returns [False] and the directory is unchanged; when the content
    read back from the temporary file fails it, likewise.  A call that
    returns [True] has passed both checks, and the file then holds the
    content read back from the temporary file. *)
Theorem save_length_checks file_path key value (w : @World Server) r w' :
  save_metadata_to_file text_len fm_loads fm_dumps file_path key value w = (r, w') ->
  (forall original post new_content,
     fs_get w file_path = Some original -> fm_loads original = Some post ->
     fm_dumps (dict_set String.eqb (fst post) key value, snd post) = Some new_content ->
     too_short text_len original new_content = true ->
     r = Some false /\ w_fs w' = w_fs w) /\
  (forall original t,
     fs_get w file_path = Some original -> f_stored (current_faults w) = Some t ->
     too_short text_len original t = true ->
     r = Some false /\ w_fs w' = w_fs w) /\
  (r = Some true ->
   exists original post new_content,
     let written := match f_stored (current_faults w) with
                    | Some t => t | None => new_content end in
     fs_get w file_path = Some original /\ fm_loads original = Some post /\
     fm_dumps (dict_set String.eqb (fst post) key value, snd post) = Some new_content /\
     too_short text_len original new_content = false /\
     too_short text_len original written = false /\
     fs_get w' file_path = Some written).
Proof.
  intros Heq. pose proof (save_cases text_len fm_loads fm_dumps file_path key value w) as H.
  cbv zeta in H. rewrite Heq in H.
  destruct H as [[Hfs Hr]|(o & p & n & H)].
  - split; [intros; split; assumption|].
    split; [intros; split; assumption|].
    intros Ht. rewrite Hr in Ht. discriminate Ht.
  - destruct H as (Hrd & Ho & Hl & Hd & Ht1 & Htmp & Hc & Hw & Hrt & Ht2 & Hm & Hfs & Hr).
    split; [|split].
    + intros o' p' n' Ho' Hl' Hd' Ht. rewrite Ho in Ho'. injection Ho' as <-.
      rewrite Hl in Hl'. injection Hl' as <-. rewrite Hd in Hd'. injection Hd' as <-.
      rewrite Ht1 in Ht. discriminate Ht.
    + intros o' t Ho' Hs Ht. rewrite Ho in Ho'. injection Ho' as <-.
      rewrite Hs in Ht2. rewrite Ht2 in Ht. discriminate Ht.
    + intros _. exists o, p, n. repeat split; try assumption.
      unfold fs_get. rewrite Hfs.
      assert (Hne : file_path <> join (dirname file_path) (tmp_name (current_faults w))).
      { intros E. unfold fs_get in Ho, Htmp. rewrite <- E in Htmp. congruence. }
      rewrite fs_remove_get_other by exact Hne. apply dict_get_set_same.
Qed.
End Claims.

(** The temporary file reads back empty: the second check fails. *)
Lemma save_length_checks_witness :
  let S := save_metadata_to_file String.length toy_loads toy_dumps
             "/notes/a.md" "wp-post-id" (PInt 7) (save_world short_read) in
  fst S = Some false /\ w_fs (snd S) = w_fs (save_world short_read).
Proof.
  intros S.
  refine (proj1 (proj2 (save_length_checks String.length toy_loads toy_dumps
            "/notes/a.md" "wp-post-id" (PInt 7) (save_world short_read) (fst S) (snd S) _))
            sample_doc "" _ _ _); reflexivity.
Defined.

(** C3 (the original can change on a failed call).  When the success
    [print] after [shutil.move] raises, [save_metadata_to_file] returns
    [False] although the note already holds the new front matter. *)
Theorem save_print_fault_replaces_original :
  let w := save_world print_fault in
  let S := save_metadata_to_file String.length toy_loads toy_dumps
             "/notes/a.md" "wp-post-id" (PInt 7) w in
  fst S = Some false /\
  fs_get w "/notes/a.md" = Some sample_doc /\
  fs_get (snd S) "/notes/a.md" =
    Some ("---" ++ nl ++ "publish: true" ++ nl ++ "title: A" ++ nl ++ "wp-post-id: 7" ++ nl
          ++ "---" ++ nl ++ "body") /\
  fs_get (snd S) "/notes/tmp1.md" = None.
Proof. vm_compute. repeat split. Qed.
End SaveClaims.

(** ** Facts about convert_wiki_links *)
Module WikiFacts.
Import PathOps WikiLinks.

Lemma sapp_assoc (x y z : string) : x ++ (y ++ z) = (x ++ y) ++ z.
Proof. induction x as [|c x IH]; simpl; [reflexivity|rewrite IH; reflexivity]. Qed.

Lemma sapp_nil_r (x : string) : x ++ "" = x.
Proof. induction x as [|c x IH]; simpl; [reflexivity|rewrite IH; reflexivity]. Qed.

Lemma slength_app (x y : string) : String.length (x ++ y) = (String.length x + String.length y)%nat.
Proof. induction x as [|c x IH]; simpl; [reflexivity|rewrite IH; reflexivity]. Qed.

Lemma contains_char_app (c : ascii) (x y : string) :
  contains (String c "") (x ++ y) = contains (String c "") x || contains (String c "") y.
Proof.
  induction x as [|a x IH]; simpl; [reflexivity|].
  rewrite IH. destruct (ascii_dec c a); [|reflexivity].
  destruct x, y; reflexivity.
Qed.

Lemma contains_char_cons (c a : ascii) (s : string) :
  contains (String c "") (String a s) = false -> a <> c /\ contains (String c "") s = false.
Proof.
  simpl. destruct (ascii_dec c a) as [E|E]; [destruct s; discriminate|]. simpl.
  intros H. split; [congruence|exact H].
Qed.

Lemma span_not_app_eq (stop : ascii) (s : string) :
  fst (span_not stop s) ++ snd (span_not stop s) = s.
Proof.
  induction s as [|c s IH]; simpl; [reflexivity|].
  destruct (Ascii.eqb c stop); [reflexivity|].
  destruct (span_not stop s) as [g r]. simpl in *. rewrite IH. reflexivity.
Qed.

Lemma span_not_app (stop : ascii) (l X : string) :
  contains (String stop "") l = false -> span_not stop (l ++ String stop X) = (l, String stop X).
Proof.
  induction l as [|a l IH]; simpl; intros H.
  - rewrite Ascii.eqb_refl. reflexivity.
  - apply contains_char_cons in H as [Hne H].
    rewrite (proj2 (Ascii.eqb_neq a stop) Hne), (IH H). reflexivity.
Qed.

Lemma span_not_all (stop : ascii) (s : string) :
  contains (String stop "") s = false -> span_not stop s = (s, "").
Proof.
  induction s as [|a s IH]; simpl; intros H; [reflexivity|].
  apply contains_char_cons in H as [Hne H].
  rewrite (proj2 (Ascii.eqb_neq a stop) Hne), (IH H). reflexivity.
Qed.

Lemma prefix_nil s : String.prefix "" s = true.
Proof. destruct s; reflexivity. Qed.

Lemma prefix_open2 c s : String.prefix "[[" (String c s) = true -> c = "["%char.
Proof.
  intros H.
  change (String.prefix "[[" (String c s)) with
    (if ascii_dec "["%char c then String.prefix "[" s else false) in H.
  destruct (ascii_dec "["%char c); congruence.
Qed.

Lemma prefix_open2' c1 c2 s : String.prefix "[[" (String c1 (String c2 s)) = true -> c2 = "["%char.
Proof.
  intros H.
  change (String.prefix "[[" (String c1 (String c2 s))) with
    (if ascii_dec "["%char c1 then
       (if ascii_dec "["%char c2 then String.prefix "" s else false) else false) in H.
  destruct (ascii_dec "["%char c1), (ascii_dec "["%char c2); congruence.
Qed.

Ltac split_char c := destruct c as [[] [] [] [] [] [] [] []]; cbn in *; try discriminate.

Lemma match_piped_inv s o r :
  match_piped s = Some (o, r) ->
  exists g1 g2, s = "[[" ++ g1 ++ "|" ++ g2 ++ "]]" ++ r /\ o = link_html g1 g2.
Proof.
  intros H. destruct s as [|c1 [|c2 s]]; [discriminate|split_char c1|].
  split_char c1. split_char c2.
  pose proof (span_not_app_eq "|" s) as Es.
  destruct (span_not "|" s) as [g1 r1]. simpl in Es.
  destruct g1 as [|x g1]; [discriminate|].
  destruct r1 as [|c3 r1]; [discriminate|]. split_char c3.
  pose proof (span_not_app_eq "]" r1) as Er.
  destruct (span_not "]" r1) as [g2 r2]. simpl in Er.
  destruct g2 as [|y g2]; [discriminate|].
  destruct r2 as [|c4 [|c5 rest]]; [discriminate|split_char c4|].
  split_char c4. split_char c5.
  injection H as <- <-. exists (String x g1), (String y g2). split; [|reflexivity].
  rewrite <- Es, <- Er. reflexivity.
Qed.

Lemma match_plain_inv s o r :
  match_plain s = Some (o, r) -> exists g, s = "[[" ++ g ++ "]]" ++ r /\ o = link_html g g.
Proof.
  intros H. destruct s as [|c1 [|c2 s]]; [discriminate|split_char c1|].
  split_char c1. split_char c2.
  pose proof (span_not_app_eq "]" s) as Es.
  destruct (span_not "]" s) as [g r2]. simpl in Es.
  destruct g as [|x g]; [discriminate|].
  destruct r2 as [|c4 [|c5 rest]]; [discriminate|split_char c4|].
  split_char c4. split_char c5.
  injection H as <- <-. exists (String x g). split; [|reflexivity].
  rewrite <- Es. reflexivity.
Qed.

Section Sub.
Variable m : string -> option (string * string).
Hypothesis Hlen : forall s o r, m s = Some (o, r) -> (String.length r < String.length s)%nat.
Hypothesis Hstart : forall s o r, m s = Some (o, r) -> String.prefix "[[" s = true.

Lemma re_sub_fuel : forall f1 f2 s,
  (String.length s <= f1)%nat -> (String.length s <= f2)%nat -> re_sub m f1 s = re_sub m f2 s.
Proof.
  induction f1 as [|f1 IH]; intros f2 s H1 H2.
  - destruct s; simpl in H1; [|lia]. destruct f2; reflexivity.
  - destruct s as [|c s']; [destruct f2; reflexivity|].
    destruct f2 as [|f2]; [simpl in H2; lia|]. simpl.
    destruct (m (String c s')) as [[o r]|] eqn:E.
    + apply Hlen in E. simpl in *. f_equal. apply IH; lia.
    + simpl in *. f_equal. apply IH; lia.
Qed.

Lemma sub_all_none c s : m (String c s) = None -> sub_all m (String c s) = String c (sub_all m s).
Proof. intros E. unfold sub_all. simpl. rewrite E. reflexivity. Qed.

Lemma sub_all_some s o r : m s = Some (o, r) -> sub_all m s = o ++ sub_all m r.
Proof.
  intros E. destruct s as [|c s'].
  - apply Hstart in E. discriminate.
  - unfold sub_all. simpl. rewrite E. f_equal.
    apply Hlen in E. simpl in E. apply re_sub_fuel; lia.
Qed.

Lemma sub_all_skip a s : contains "[" a = false -> sub_all m (a ++ s) = a ++ sub_all m s.
Proof.
  induction a as [|c a IH]; intros H; [reflexivity|].
  apply contains_char_cons in H as [Hne H]. simpl.
  rewrite sub_all_none; [rewrite IH by exact H; reflexivity|].
  destruct (m (String c (a ++ s))) as [[o r]|] eqn:E; [|reflexivity].
  apply Hstart, prefix_open2 in E. congruence.
Qed.

Lemma sub_all_no_open s : contains "[" s = false -> sub_all m s = s.
Proof.
  intros H. rewrite <- (sapp_nil_r s) at 1. rewrite sub_all_skip by exact H.
  apply sapp_nil_r.
Qed.

Lemma sub_all_id s : contains "[[" s = false -> sub_all m s = s.
Proof.
  induction s as [|c s IH]; intros H; [reflexivity|].
  cbn [contains] in H. apply orb_false_iff in H as [Hp H].
  rewrite sub_all_none; [rewrite IH by exact H; reflexivity|].
  destruct (m (String c s)) as [[o r]|] eqn:E; [|reflexivity].
  apply Hstart in E. congruence.
Qed.
Lemma sub_all_single_open q : contains "[" q = false -> sub_all m (String "[" q) = String "[" q.
Proof.
  intros H. destruct q as [|c q].
  - rewrite sub_all_none; [reflexivity|].
    destruct (m "[") as [[o r]|] eqn:E; [|reflexivity].
    apply Hstart in E. vm_compute in E. discriminate.
  - pose proof H as H'. apply contains_char_cons in H' as [Hne Hq].
    rewrite sub_all_none; [rewrite sub_all_no_open by exact H; reflexivity|].
    destruct (m (String "[" (String c q))) as [[o r]|] eqn:E; [|reflexivity].
    apply Hstart, prefix_open2' in E. congruence.
Qed.

Lemma sub_all_open2_none q :
  m ("[[" ++ q) = None -> contains "[" q = false -> sub_all m ("[[" ++ q) = "[[" ++ q.
Proof.
  intros E H. change ("[[" ++ q) with (String "[" (String "[" q)) in *.
  rewrite sub_all_none by exact E. rewrite sub_all_single_open by exact H. reflexivity.
Qed.
End Sub.

Lemma match_piped_len s o r :
  match_piped s = Some (o, r) -> (String.length r < String.length s)%nat.
Proof.
  intros H. apply match_piped_inv in H as (g1 & g2 & -> & _).
  rewrite !slength_app. simpl. lia.
Qed.

Lemma match_piped_start s o r : match_piped s = Some (o, r) -> String.prefix "[[" s = true.
Proof. intros H. apply match_piped_inv in H as (g1 & g2 & -> & _). simpl. apply prefix_nil. Qed.

Lemma match_plain_len s o r :
  match_plain s = Some (o, r) -> (String.length r < String.length s)%nat.
Proof.
  intros H. apply match_plain_inv in H as (g & -> & _).
  rewrite !slength_app. simpl. lia.
Qed.

Lemma match_plain_start s o r : match_plain s = Some (o, r) -> String.prefix "[[" s = true.
Proof. intros H. apply match_plain_inv in H as (g & -> & _). simpl. apply prefix_nil. Qed.

Lemma match_piped_link l d b :
  contains "|" l = false -> contains "]" d = false -> l <> "" -> d <> "" ->
  match_piped ("[[" ++ l ++ "|" ++ d ++ "]]" ++ b) = Some (link_html l d, b).
Proof.
  intros Hl Hd Hl0 Hd0. cbn [append]. unfold match_piped.
  rewrite span_not_app by exact Hl. destruct l as [|x l]; [congruence|].
  rewrite span_not_app by exact Hd. destruct d as [|y d]; [congruence|].
  reflexivity.
Qed.

Lemma match_plain_link l b :
  contains "]" l = false -> l <> "" ->
  match_plain ("[[" ++ l ++ "]]" ++ b) = Some (link_html l l, b).
Proof.
  intros Hl Hl0. cbn [append]. unfold match_plain.
  rewrite span_not_app by exact Hl. destruct l as [|x l]; [congruence|].
  reflexivity.
Qed.

Lemma match_piped_no_pipe q : contains "|" q = false -> match_piped ("[[" ++ q) = None.
Proof.
  intros H. cbn [append]. unfold match_piped. rewrite span_not_all by exact H.
  destruct q; reflexivity.
Qed.

Lemma match_plain_no_close q : contains "]" q = false -> match_plain ("[[" ++ q) = None.
Proof.
  intros H. cbn [append]. unfold match_plain. rewrite span_not_all by exact H.
  destruct q; reflexivity.
Qed.

Ltac no_char :=
  repeat rewrite contains_char_app;
  repeat match goal with H : contains ?c ?x = false |- context [contains ?c ?x] => rewrite H end;
  reflexivity.

Lemma link_html_no_open l d :
  contains "[" l = false -> contains "[" d = false -> contains "[" (link_html l d) = false.
Proof. intros Hl Hd. unfold link_html. no_char. Qed.

Lemma sub_all_piped_skip a s : contains "[" a = false -> sub_all match_piped (a ++ s) = a ++ sub_all match_piped s.
Proof. apply sub_all_skip. exact match_piped_start. Qed.

Lemma sub_all_plain_skip a s : contains "[" a = false -> sub_all match_plain (a ++ s) = a ++ sub_all match_plain s.
Proof. apply sub_all_skip. exact match_plain_start. Qed.

(** Text without any [[ comes out of convert_wiki_links unchanged. *)
Theorem convert_wiki_links_no_link s :
  contains "[[" s = false -> convert_wiki_links s = s.
Proof.
  intros H. unfold convert_wiki_links.
  rewrite (sub_all_id match_piped match_piped_start s H).
  exact (sub_all_id match_plain match_plain_start s H).
Qed.

Lemma convert_wiki_links_no_link_witness :
  contains "[[" "a [b] c" = false /\ convert_wiki_links "a [b] c" = "a [b] c".
Proof.
  split; [reflexivity|]. apply convert_wiki_links_no_link. reflexivity.
Defined.

(** A piped link [[l|d]] becomes an anchor to #l showing d, the rest of the text is kept. *)
Theorem convert_wiki_links_piped a l d b :
  contains "[" a = false -> contains "[" l = false -> contains "[" d = false ->
  contains "[" b = false -> contains "|" l = false -> contains "]" d = false ->
  l <> "" -> d <> "" ->
  convert_wiki_links (a ++ "[[" ++ l ++ "|" ++ d ++ "]]" ++ b) = a ++ link_html l d ++ b.
Proof.
  intros Ha Hl Hd Hb Hlp Hdc Hl0 Hd0. unfold convert_wiki_links.
  rewrite sub_all_piped_skip by exact Ha.
  rewrite (sub_all_some match_piped match_piped_len match_piped_start _ _ _
             (match_piped_link l d b Hlp Hdc Hl0 Hd0)).
  rewrite (sub_all_no_open match_piped match_piped_start b Hb).
  rewrite sub_all_plain_skip by exact Ha.
  rewrite (sub_all_no_open match_plain match_plain_start); [reflexivity|].
  rewrite contains_char_app, link_html_no_open, Hb by assumption. reflexivity.
Qed.

Lemma convert_wiki_links_piped_witness :
  convert_wiki_links ("see " ++ "[[" ++ "Page" ++ "|" ++ "the page" ++ "]]" ++ ".") =
  "see " ++ link_html "Page" "the page" ++ ".".
Proof.
  apply convert_wiki_links_piped; try reflexivity; discriminate.
Defined.

(** A plain link [[l]] becomes an anchor to #l showing l, the rest of the text is kept. *)
Theorem convert_wiki_links_plain a l b :
  contains "[" a = false -> contains "[" l = false -> contains "[" b = false ->
  contains "|" l = false -> contains "|" b = false -> contains "]" l = false ->
  l <> "" ->
  convert_wiki_links (a ++ "[[" ++ l ++ "]]" ++ b) = a ++ link_html l l ++ b.
Proof.
  intros Ha Hl Hb Hlp Hbp Hlc Hl0. unfold convert_wiki_links.
  rewrite sub_all_piped_skip by exact Ha.
  rewrite (sub_all_open2_none match_piped match_piped_start).
  2: { apply match_piped_no_pipe. no_char. }
  2: { no_char. }
  rewrite sub_all_plain_skip by exact Ha.
  rewrite (sub_all_some match_plain match_plain_len match_plain_start _ _ _
             (match_plain_link l b Hlc Hl0)).
  rewrite (sub_all_no_open match_plain match_plain_start b Hb). reflexivity.
Qed.

Lemma convert_wiki_links_plain_witness :
  convert_wiki_links ("see " ++ "[[" ++ "Page" ++ "]]" ++ ".") =
  "see " ++ link_html "Page" "Page" ++ ".".
Proof.
  apply convert_wiki_links_plain; try reflexivity; discriminate.
Defined.

(** The piped pattern runs first over the whole text and its target stops only at |:
    a plain link followed later by a piped link is swallowed into one anchor whose
    target runs from the plain link's name up to the pipe. *)
Theorem convert_wiki_links_plain_then_piped a x y l d b :
  contains "[" a = false -> contains "[" x = false -> contains "[" y = false ->
  contains "[" l = false -> contains "[" d = false -> contains "[" b = false ->
  contains "|" x = false -> contains "|" y = false -> contains "|" l = false ->
  contains "]" l = false -> contains "]" d = false -> contains "]" b = false ->
  d <> "" ->
  convert_wiki_links (a ++ "[[" ++ x ++ "]]" ++ y ++ "[[" ++ l ++ "|" ++ d ++ "]]" ++ b) =
  a ++ link_html (x ++ "]]" ++ y ++ "[[" ++ l) d ++ b.
Proof.
  intros Ha Hx Hy Hl Hd Hb Hxp Hyp Hlp Hlc Hdc Hbc Hd0. unfold convert_wiki_links.
  set (g := x ++ "]]" ++ y ++ "[[" ++ l).
  replace (x ++ "]]" ++ y ++ "[[" ++ l ++ "|" ++ d ++ "]]" ++ b)
    with (g ++ "|" ++ d ++ "]]" ++ b) by (subst g; rewrite !sapp_assoc; reflexivity).
  rewrite sub_all_piped_skip by exact Ha.
  assert (Hg : contains "|" g = false) by (subst g; no_char).
  assert (Hg0 : g <> "") by (subst g; destruct x; discriminate).
  rewrite (sub_all_some match_piped match_piped_len match_piped_start _ _ _
             (match_piped_link g d b Hg Hdc Hg0 Hd0)).
  rewrite (sub_all_no_open match_piped match_piped_start b Hb).
  rewrite sub_all_plain_skip by exact Ha. f_equal.
  set (P := "<a href=" ++ dq ++ "#" ++ x ++ "]]" ++ y).
  set (Q := l ++ dq ++ ">" ++ d ++ "</a>" ++ b).
  assert (E : link_html g d ++ b = P ++ "[[" ++ Q)
    by (subst g P Q; unfold link_html; rewrite !sapp_assoc; reflexivity).
  rewrite E. rewrite sub_all_plain_skip by (subst P; no_char).
  rewrite (sub_all_open2_none match_plain match_plain_start).
  - reflexivity.
  - apply match_plain_no_close. subst Q; no_char.
  - subst Q; no_char.
Qed.

Lemma convert_wiki_links_plain_then_piped_witness :
  convert_wiki_links ("" ++ "[[" ++ "x" ++ "]]" ++ " y " ++ "[[" ++ "l" ++ "|" ++ "d" ++ "]]" ++ " z") =
  "" ++ link_html ("x" ++ "]]" ++ " y " ++ "[[" ++ "l") "d" ++ " z".
Proof.
  apply convert_wiki_links_plain_then_piped; try reflexivity; discriminate.
Defined.

End WikiFacts.

(** ** Facts about the language manager *)
Module LangFacts.
Import PathOps Discovery Publish PublishFacts SaveFacts WikiFacts LanguageManager.

(** [self.language_posts[language].get(file_path)]; [None]: the
    [KeyError] of a language with no dict. *)
Definition lookup_post (lp : LangPosts) (language file_path : string) : option PyVal :=
  match dict_get String.eqb lp language with
  | Some d => Some (get_or d file_path PNone)
  | None => None
  end.

(** The post id registered under [language] for [file_path], if any: a
    query on the state, [None] when either key is absent. *)
Definition posts_get (lp : LangPosts) (language file_path : string) : option PyVal :=
  match dict_get String.eqb lp language with
  | Some d => dict_get String.eqb d file_path
  | None => None
  end.

Lemma dict_set_length {V} (d : list (string * V)) k v :
  length (dict_set String.eqb d k v) =
  match dict_get String.eqb d k with Some _ => length d | None => S (length d) end.
Proof.
  induction d as [|[k' v'] d IH]; simpl; [reflexivity|].
  destruct (String.eqb k k'); simpl; [reflexivity|].
  rewrite IH. destruct (dict_get String.eqb d k); reflexivity.
Qed.

Lemma register_post_get lp f l id l' :
  dict_get String.eqb (register_post lp f l id) l' =
  if String.eqb l' l
  then Some (dict_set String.eqb
               (match dict_get String.eqb lp l with Some d => d | None => [] end) f id)
  else dict_get String.eqb lp l'.
Proof.
  unfold register_post.
  destruct (String.eqb l' l) eqn:E.
  - apply String.eqb_eq in E. subst l'.
    destruct (dict_get String.eqb lp l) as [d|] eqn:Ed.
    + rewrite Ed. apply dict_get_set_same.
    + rewrite !dict_get_set_same. reflexivity.
  - apply String.eqb_neq in E.
    destruct (dict_get String.eqb lp l) as [d|] eqn:Ed.
    + rewrite Ed. apply dict_get_set_other. exact E.
    + rewrite dict_get_set_same, !dict_get_set_other by exact E. reflexivity.
Qed.

(** After [register_post(file_path, language, post_id)] the dict of
    [language] exists: [.get(file_path)] gives [post_id], and [.get] of
    any other path gives what it gave before, or [None] when the
    language is new (the lookup raised [KeyError] before).  Lookups
    under every other language are unchanged. *)
Theorem register_post_lookup lp f l id l' f' :
  lookup_post (register_post lp f l id) l' f' =
  if String.eqb l' l
  then Some (if String.eqb f' f then id
             else match lookup_post lp l' f' with Some v => v | None => PNone end)
  else lookup_post lp l' f'.
Proof.
  unfold lookup_post, get_or. rewrite register_post_get.
  destruct (String.eqb l' l) eqn:El; [|reflexivity].
  apply String.eqb_eq in El. subst l'.
  destruct (String.eqb f' f) eqn:Ef.
  - apply String.eqb_eq in Ef. subst f'. rewrite dict_get_set_same. reflexivity.
  - apply String.eqb_neq in Ef. rewrite dict_get_set_other by exact Ef.
    destruct (dict_get String.eqb lp l); reflexivity.
Qed.

(** [get_summary] after [register_post]: the count of the language the
    post is registered under grows by one exactly when the path was not
    registered there yet; registering under any other language leaves
    both counts as they were. *)
Theorem register_post_summary lp f l id ko en :
  get_summary lp = Some (ko, en) ->
  get_summary (register_post lp f l id) =
  Some ((if String.eqb l "ko" then
           match posts_get lp "ko" f with Some _ => ko | None => S ko end else ko),
        (if String.eqb l "en" then
           match posts_get lp "en" f with Some _ => en | None => S en end else en)).
Proof.
  unfold get_summary, posts_get. rewrite !register_post_get.
  destruct (dict_get String.eqb lp "ko") as [kd|] eqn:Ek; [|discriminate].
  destruct (dict_get String.eqb lp "en") as [ed|] eqn:Ee; [|discriminate].
  intros [= <- <-].
  destruct (String.eqb l "ko") eqn:Elk.
  - apply String.eqb_eq in Elk. subst l. simpl. rewrite Ek, dict_set_length. reflexivity.
  - destruct (String.eqb l "en") eqn:Ele.
    + apply String.eqb_eq in Ele. subst l. simpl. rewrite Ee, dict_set_length. reflexivity.
    + rewrite String.eqb_sym, Elk, String.eqb_sym, Ele. reflexivity.
Qed.

Lemma register_post_summary_witness :
  get_summary init = Some (0%nat, 0%nat) /\
  get_summary (register_post init "/n/a.md" "ko" (PInt 3)) = Some (1%nat, 0%nat).
Proof.
  split; [reflexivity|].
  exact (register_post_summary init "/n/a.md" "ko" (PInt 3) 0 0 eq_refl).
Defined.

Section Mirror.
Variable text_len : string -> nat.
Variable fm_loads : string -> option (Yaml * string).
Variable fm_dumps : Yaml * string -> option string.
Context {Server : Type}.


(** Leaves the log, the server and the pending save faults alone. *)
Definition quiet (w w' : @World Server) : Prop :=
  w_log w' = w_log w /\ w_server w' = w_server w /\ w_faults w' = w_faults w.

#[local] Instance quiet_preorder : PreOrder quiet.
Proof.
  split; [intros w; repeat split; reflexivity|].
  intros a b c (H1 & H2 & H3) (H4 & H5 & H6). repeat split; congruence.
Qed.

Lemma set_fs_quiet f : keeps quiet (@set_fs Server f).
Proof. intros w. repeat split; reflexivity. Qed.

Lemma save_tail (X : M bool) path k v (w : @World Server) :
  keeps quiet X ->
  let '(r, w') := bind (catch X (ret false)) (fun r => bind (log (ESave path k v r)) (fun _ => ret r)) w in
  exists b, r = Some b /\ w_log w' = app (w_log w) [ESave path k v b] /\
            w_server w' = w_server w /\ w_faults w' = w_faults w.
Proof.
  intros HX. specialize (HX w). unfold bind, catch, ret, log, modify.
  destruct (X w) as [[b|] w1]; simpl in *.
  - destruct HX as (H1 & H2 & H3). exists b. rewrite H1, H2, H3. auto.
  - destruct HX as (H1 & H2 & H3). exists false. rewrite H1, H2, H3. auto.
Qed.

(** [save_metadata_to_file] never raises: it returns a flag, logs exactly
    its own outcome and takes one fault record. *)
Lemma save_outcome path k v (w : @World Server) :
  let '(r, w') := @save_metadata_to_file text_len fm_loads fm_dumps Server path k v w in
  exists b, r = Some b /\ w_log w' = app (w_log w) [ESave path k v b] /\
            w_server w' = w_server w /\ w_faults w' = tl (w_faults w).
Proof.
  assert (Hn : next_faults w = (Some (current_faults w),
                                mkWorld (w_fs w) (w_server w) (tl (w_faults w)) (w_log w)))
    by (destruct w as [? ? [|? ?] ?]; reflexivity).
  unfold save_metadata_to_file. unfold bind at 1. rewrite Hn. cbv beta zeta.
  match goal with
  | |- context [bind (catch ?X (ret false)) ?K ?w1] =>
      assert (HX : keeps quiet X)
        by (unfold read_file, write_file, unlink, rename, path_exists;
            keeps_split ltac:(apply set_fs_quiet));
      pose proof (save_tail X path k v w1 HX) as H
  end.
  exact H.
Qed.

(** [link_mirror_posts] when either post id is missing or falsy: it
    returns [False] and writes nothing. *)
Theorem link_mirror_posts_missing lp ko en kd ed (w : @World Server) :
  dict_get String.eqb lp "ko" = Some kd -> dict_get String.eqb lp "en" = Some ed ->
  truthy (get_or kd ko PNone) && truthy (get_or ed en PNone) = false ->
  @link_mirror_posts text_len fm_loads fm_dumps Server lp ko en w = (Some false, w).
Proof.
  intros Hk He Ht. unfold link_mirror_posts, bind, lift. rewrite Hk, He.
  unfold ret. rewrite Ht. reflexivity.
Qed.

(** [link_mirror_posts] when both ids are there: it saves the English id
    into the Korean file, then the Korean id into the English file (the
    second save is attempted whatever the first returned), and returns
    [True] only when both saves did. *)
Theorem link_mirror_posts_saves lp ko en kd ed (w : @World Server) :
  dict_get String.eqb lp "ko" = Some kd -> dict_get String.eqb lp "en" = Some ed ->
  truthy (get_or kd ko PNone) = true -> truthy (get_or ed en PNone) = true ->
  let '(r, w') := @link_mirror_posts text_len fm_loads fm_dumps Server lp ko en w in
  exists b1 b2, r = Some (b1 && b2) /\
    w_log w' = app (w_log w) [ESave ko "mirror_post_id" (get_or ed en PNone) b1;
                              ESave en "mirror_post_id" (get_or kd ko PNone) b2] /\
    w_server w' = w_server w.
Proof.
  intros Hk He Htk Hte. unfold link_mirror_posts, bind at 1, lift. rewrite Hk.
  unfold ret at 1. cbv beta iota. unfold bind at 1. rewrite He.
  unfold ret at 1. cbv beta iota.
  rewrite Htk, Hte. cbn [negb andb]. cbv beta iota.
  pose proof (save_outcome ko "mirror_post_id" (get_or ed en PNone) w) as H1.
  unfold bind at 1.
  destruct (@save_metadata_to_file text_len fm_loads fm_dumps Server ko "mirror_post_id" (get_or ed en PNone) w) as [r1 w1].
  destruct H1 as (b1 & -> & L1 & S1 & _). cbv beta iota.
  pose proof (save_outcome en "mirror_post_id" (get_or kd ko PNone) w1) as H2.
  unfold bind.
  destruct (@save_metadata_to_file text_len fm_loads fm_dumps Server en "mirror_post_id" (get_or kd ko PNone) w1) as [r2 w2].
  destruct H2 as (b2 & -> & L2 & S2 & _). cbv beta iota.
  exists b1, b2. unfold ret. split; [reflexivity|]. split.
  - rewrite L2, L1, <- app_assoc. reflexivity.
  - congruence.
Qed.
End Mirror.

Lemma link_mirror_posts_missing_witness :
  link_mirror_posts String.length PublishSamples.toy_loads PublishSamples.toy_dumps
    (register_post init "/n/a.md" "ko" (PInt 3)) "/n/a.md" "/n/en/a.md"
    (PublishSamples.save_world no_faults)
  = (Some false, PublishSamples.save_world no_faults).
Proof.
  apply (link_mirror_posts_missing _ _ _ _ _ _ [("/n/a.md", PInt 3)] []); reflexivity.
Defined.

Lemma link_mirror_posts_saves_witness :
  let lp := register_post (register_post init "/n/a.md" "ko" (PInt 3)) "/n/en/a.md" "en" (PInt 4) in
  let '(r, w') := link_mirror_posts String.length PublishSamples.toy_loads PublishSamples.toy_dumps
                    lp "/n/a.md" "/n/en/a.md" (PublishSamples.save_world no_faults) in
  exists b1 b2, r = Some (b1 && b2) /\
    w_log w' = app (w_log (PublishSamples.save_world no_faults))
                 [ESave "/n/a.md" "mirror_post_id" (PInt 4) b1;
                  ESave "/n/en/a.md" "mirror_post_id" (PInt 3) b2] /\
    w_server w' = w_server (PublishSamples.save_world no_faults).
Proof.
  intros lp.
  apply (link_mirror_posts_saves String.length PublishSamples.toy_loads PublishSamples.toy_dumps
           lp "/n/a.md" "/n/en/a.md" [("/n/a.md", PInt 3)] [("/n/en/a.md", PInt 4)]);
    reflexivity.
Defined.

(** *** Paths of the form [d/n] *)

Lemma list_ascii_app (x y : string) :
  list_ascii_of_string (x ++ y) = app (list_ascii_of_string x) (list_ascii_of_string y).
Proof. induction x as [|c x IH]; simpl; [reflexivity|rewrite IH; reflexivity]. Qed.

Lemma string_of_list_app (x y : list ascii) :
  string_of_list_ascii (app x y) = string_of_list_ascii x ++ string_of_list_ascii y.
Proof. induction x as [|c x IH]; simpl; [reflexivity|rewrite IH; reflexivity]. Qed.

Lemma rev_string_app (x y : string) : rev_string (x ++ y) = rev_string y ++ rev_string x.
Proof.
  unfold rev_string. rewrite list_ascii_app, rev_app_distr, string_of_list_app. reflexivity.
Qed.

Lemma prefix_app (p z : string) : String.prefix p (p ++ z) = true.
Proof.
  induction p as [|c p IH]; simpl; [apply prefix_nil|].
  destruct (ascii_dec c c); [exact IH|congruence].
Qed.

Lemma ends_with_app (x y : string) : ends_with y (x ++ y) = true.
Proof. unfold ends_with. rewrite rev_string_app. apply prefix_app. Qed.

Lemma substring_app_l (x y : string) m :
  substring 0 (String.length x + m) (x ++ y) = x ++ substring 0 m y.
Proof. induction x as [|c x IH]; simpl; [reflexivity|rewrite IH; reflexivity]. Qed.

Lemma substring_app_r (x y : string) n m :
  substring (String.length x + n) m (x ++ y) = substring n m y.
Proof. induction x as [|c x IH]; simpl; [reflexivity|exact IH]. Qed.

Lemma substring_full (s : string) : substring 0 (String.length s) s = s.
Proof. induction s as [|c s IH]; simpl; [reflexivity|rewrite IH; reflexivity]. Qed.

Lemma after_last_slash_aux_app (x y : string) : forall i acc,
  after_last_slash_aux (x ++ y) i acc =
  after_last_slash_aux y (i + String.length x) (after_last_slash_aux x i acc).
Proof.
  induction x as [|c x IH]; intros i acc; simpl.
  - rewrite Nat.add_0_r. reflexivity.
  - rewrite IH. f_equal. lia.
Qed.

Lemma after_last_slash_aux_noslash (s : string) : forall i acc,
  contains "/" s = false -> after_last_slash_aux s i acc = acc.
Proof.
  induction s as [|c s IH]; intros i acc H; simpl; [reflexivity|].
  apply contains_char_cons in H as [Hne H].
  rewrite (proj2 (Ascii.eqb_neq c "/"%char) Hne). apply IH, H.
Qed.

Lemma after_last_slash_sep d n :
  contains "/" n = false -> after_last_slash (d ++ "/" ++ n) = S (String.length d).
Proof.
  intros H. unfold after_last_slash. rewrite after_last_slash_aux_app.
  simpl. apply after_last_slash_aux_noslash, H.
Qed.

Lemma basename_sep d n : contains "/" n = false -> basename (d ++ "/" ++ n) = n.
Proof.
  intros H. unfold basename. rewrite after_last_slash_sep by exact H.
  rewrite slength_app. simpl.
  replace (String.length d + S (String.length n) - S (String.length d))%nat
    with (String.length n) by lia.
  replace (S (String.length d)) with (String.length d + 1)%nat by lia.
  rewrite substring_app_r. apply substring_full.
Qed.

Lemma last_not_slash d :
  d <> "" -> last_char_slash d = false ->
  exists r c, list_ascii_of_string d = app r [c] /\ Ascii.eqb c "/"%char = false.
Proof.
  induction d as [|a d IH]; intros Hd H; [congruence|].
  destruct d as [|b d'].
  - exists [], a. split; [reflexivity|exact H].
  - change (last_char_slash (String b d') = false) in H.
    destruct (IH ltac:(discriminate) H) as (r & c & E & Hc).
    exists (a :: r), c. simpl. simpl in E. rewrite E. auto.
Qed.

Lemma all_slashes_false d : d <> "" -> last_char_slash d = false -> all_slashes d = false.
Proof.
  induction d as [|a d IH]; intros Hd H; [congruence|].
  destruct d as [|b d'].
  - simpl. simpl in H. rewrite H. reflexivity.
  - change (last_char_slash (String b d') = false) in H.
    change (all_slashes (String a (String b d')))
      with (Ascii.eqb a "/"%char && all_slashes (String b d')).
    rewrite IH by (discriminate || exact H). apply andb_false_r.
Qed.

Lemma all_slashes_app (x y : string) : all_slashes (x ++ y) = all_slashes x && all_slashes y.
Proof.
  induction x as [|c x IH]; simpl; [reflexivity|]. rewrite IH. apply andb_assoc.
Qed.

Lemma rstrip_slash_sep d : d <> "" -> last_char_slash d = false -> rstrip_slash (d ++ "/") = d.
Proof.
  intros Hd H. destruct (last_not_slash d Hd H) as (r & c & E & Hc).
  unfold rstrip_slash. rewrite list_ascii_app, E. simpl list_ascii_of_string.
  rewrite rev_app_distr, rev_app_distr. simpl. rewrite Hc.
  change (rev (c :: rev r)) with (app (rev (rev r)) [c]).
  rewrite rev_involutive, <- E. apply string_of_list_ascii_of_string.
Qed.

Lemma dirname_sep d n :
  d <> "" -> last_char_slash d = false -> contains "/" n = false ->
  dirname (d ++ "/" ++ n) = d.
Proof.
  intros Hd Hl Hn. unfold dirname. rewrite after_last_slash_sep by exact Hn.
  replace (S (String.length d)) with (String.length d + 1)%nat by lia.
  rewrite substring_app_l.
  replace (substring 0 1 ("/" ++ n)) with "/" by (destruct n; reflexivity).
  rewrite all_slashes_app, all_slashes_false by assumption.
  replace (String.eqb (d ++ "/") "") with false by (destruct d; [congruence|reflexivity]).
  simpl. apply rstrip_slash_sep; assumption.
Qed.

Lemma last_char_slash_cons a s : s <> "" -> last_char_slash (String a s) = last_char_slash s.
Proof. destruct s; [congruence|reflexivity]. Qed.

Lemma last_char_slash_app (x y : string) : y <> "" -> last_char_slash (x ++ y) = last_char_slash y.
Proof.
  intros Hy. induction x as [|c x IH]; [reflexivity|].
  change (String c x ++ y) with (String c (x ++ y)).
  rewrite last_char_slash_cons; [exact IH|]. destruct x, y; simpl; congruence.
Qed.

Lemma join_sep d n :
  d <> "" -> last_char_slash d = false -> String.prefix "/" n = false -> join d n = d ++ "/" ++ n.
Proof.
  intros Hd Hl Hp. unfold join. rewrite Hp, Hl.
  replace (String.eqb d "") with false by (destruct d; [congruence|reflexivity]).
  reflexivity.
Qed.

Lemma prefix_slash_false n : n <> "" -> contains "/" n = false -> String.prefix "/" n = false.
Proof.
  intros Hn H. destruct n as [|c n]; [congruence|].
  apply contains_char_cons in H as [Hne _].
  change (String.prefix "/" (String c n))
    with (if ascii_dec "/"%char c then String.prefix "" n else false).
  destruct (ascii_dec "/"%char c); congruence.
Qed.

(** [find_mirror_file] for a note [d/n] (a directory [d] with no
    trailing slash, a file name [n]): the English mirror is looked up as
    [d/en/n], and from [d/en/n] the Korean one is looked up back as
    [d/n]; each is returned when it exists. *)
Theorem find_mirror_file_round_trip exists_ d n :
  d <> "" -> last_char_slash d = false -> n <> "" -> contains "/" n = false ->
  exists_ (d ++ "/en/" ++ n) = true -> exists_ (d ++ "/" ++ n) = true ->
  find_mirror_file exists_ (d ++ "/" ++ n) "en" = Some (d ++ "/en/" ++ n) /\
  find_mirror_file exists_ (d ++ "/en/" ++ n) "ko" = Some (d ++ "/" ++ n).
Proof.
  intros Hd Hl Hn Hns Hen Hko.
  assert (Hden : d ++ "/" ++ "en" <> "") by (destruct d; [congruence|discriminate]).
  assert (Hlen : last_char_slash (d ++ "/" ++ "en") = false)
    by (rewrite last_char_slash_app by discriminate; reflexivity).
  assert (Hp : String.prefix "/" n = false) by (apply prefix_slash_false; assumption).
  assert (E : d ++ "/en/" ++ n = (d ++ "/" ++ "en") ++ "/" ++ n)
    by (rewrite <- sapp_assoc; reflexivity).
  split.
  - unfold find_mirror_file. cbv zeta.
    rewrite basename_sep, dirname_sep by assumption.
    rewrite String.eqb_refl.
    rewrite (join_sep d "en") by (assumption || reflexivity).
    rewrite join_sep by assumption. rewrite <- E, Hen. reflexivity.
  - unfold find_mirror_file. cbv zeta. rewrite E.
    rewrite basename_sep, dirname_sep by assumption.
    replace (String.eqb "ko" "en") with false by reflexivity.
    replace (ends_with "/en" (d ++ "/" ++ "en")) with true
      by (symmetry; apply (ends_with_app d "/en")).
    rewrite dirname_sep by (assumption || reflexivity).
    rewrite join_sep by assumption. rewrite Hko. reflexivity.
Qed.

Lemma find_mirror_file_round_trip_witness :
  find_mirror_file (fun _ => true) ("/notes" ++ "/" ++ "a.md") "en" = Some ("/notes" ++ "/en/" ++ "a.md") /\
  find_mirror_file (fun _ => true) ("/notes" ++ "/en/" ++ "a.md") "ko" = Some ("/notes" ++ "/" ++ "a.md").
Proof.
  apply find_mirror_file_round_trip; try reflexivity; discriminate.
Defined.

End LangFacts.

(** ** Facts about the publisher methods *)
Module PublisherFacts.
Import PathOps Resolver Publish PublishFacts SaveFacts.

Section Env.
Variable text_len : string -> nat.
Variable fm_loads : string -> option (Yaml * string).
Variable fm_dumps : Yaml * string -> option string.
Context {Server : Type}.
Variable transport : Server -> Request -> option Response * Server.
Variable image_exists : string -> bool.
Variable encodes : PyVal -> bool.




Lemma blank_truthy name : blank name = false -> truthy (PStr name) = true.
Proof. destruct name; [discriminate|reflexivity]. Qed.

(** A category the search finds (status 200, a non-empty JSON list whose
    first element has an ["id"]) is returned after that one request,
    unless the line printing the name and the id cannot be written
    ([None] then); nothing is created. *)
Theorem get_or_create_category_found name (w : @World Server) srv kvs rest i :
  blank name = false ->
  transport (w_server w) (RCategorySearch name)
    = (Some (mkResponse 200 (Json (PList (PDict kvs :: rest)))), srv) ->
  dict_get String.eqb kvs "id" = Some i ->
  get_or_create_category transport encodes (PStr name) w
    = (Some (if encodes (PStr name) && encodes i then i else PNone),
       mkWorld (w_fs w) srv (w_faults w) (app (w_log w) [ERequest (RCategorySearch name)])).
Proof.
  intros Hb Ht Hi. unfold get_or_create_category.
  rewrite blank_truthy by exact Hb. cbn [negb]. cbv beta iota. rewrite Hb.
  unfold catch, bind at 1, http. cbv beta. rewrite Ht. cbv beta iota zeta.
  cbv beta iota zeta delta [bind json py_first py_item ret]. simpl. rewrite Hi.
  unfold print_line. destruct (encodes (PStr name) && encodes i); reflexivity.
Qed.

(** When the search does not answer 200 with a truthy JSON value, the
    category is created: both requests are sent, and the result is the
    ["id"] of a 200/201 JSON answer (unless the line printing the name
    and the id cannot be written), [None] on any other status. *)
Theorem get_or_create_category_creates name (w : @World Server) r1 srv1 r2 srv2 :
  blank name = false ->
  transport (w_server w) (RCategorySearch name) = (Some r1, srv1) ->
  ((status_code r1 =? 200) = false \/ exists v, body r1 = Json v /\ truthy v = false) ->
  transport srv1 (RCategoryCreate name) = (Some r2, srv2) ->
  snd (get_or_create_category transport encodes (PStr name) w)
    = mkWorld (w_fs w) srv2 (w_faults w)
        (app (w_log w) [ERequest (RCategorySearch name); ERequest (RCategoryCreate name)]) /\
  (ok_status r2 = false -> fst (get_or_create_category transport encodes (PStr name) w) = Some PNone) /\
  (forall kvs i, ok_status r2 = true -> body r2 = Json (PDict kvs) ->
     dict_get String.eqb kvs "id" = Some i ->
     fst (get_or_create_category transport encodes (PStr name) w)
     = Some (if encodes (PStr name) && encodes i then i else PNone)).
Proof.
  intros Hb Ht1 Hs Ht2.
  assert (E : get_or_create_category transport encodes (PStr name) w =
    (if ok_status r2
     then match body r2 with
          | Json (PDict kvs) =>
              Some (match dict_get String.eqb kvs "id" with
                    | Some i => if encodes (PStr name) && encodes i then i else PNone
                    | None => PNone end)
          | _ => Some PNone
          end
     else Some PNone,
     mkWorld (w_fs w) srv2 (w_faults w)
       (app (w_log w) [ERequest (RCategorySearch name); ERequest (RCategoryCreate name)]))).
  { unfold get_or_create_category.
    rewrite blank_truthy by exact Hb. cbn [negb]. cbv beta iota. rewrite Hb.
    unfold catch, bind at 1, http. cbv beta. rewrite Ht1. cbv beta iota zeta.
    assert (Hfound : forall w0 : @World Server,
      (if status_code r1 =? 200
       then bind (json r1) (fun categories => if truthy categories
              then bind (py_first categories) (fun c0 => bind (py_item c0 "id")
                     (fun cat_id => bind (print_line (encodes (PStr name) && encodes cat_id))
                                      (fun _ => ret (Some cat_id))))
              else ret None)
       else ret None) w0 = (Some None, w0)).
    { intros w0. destruct Hs as [Hs|(v & Hv & Htv)].
      - rewrite Hs. reflexivity.
      - destruct (status_code r1 =? 200); [|reflexivity].
        unfold json, bind. rewrite Hv. unfold ret. rewrite Htv. reflexivity. }
    unfold bind at 1. rewrite Hfound. cbv beta iota.
    unfold bind at 1. cbn [w_fs w_server w_faults w_log]. rewrite Ht2. cbv beta iota.
    rewrite <- app_assoc. simpl app.
    destruct (ok_status r2).
    - unfold json, bind, py_item.
      destruct (body r2) as [|[| | | | |kvs]]; try reflexivity.
      unfold ret. destruct (dict_get String.eqb kvs "id"); [|reflexivity].
      unfold print_line. destruct (_ && _); reflexivity.
    - reflexivity. }
  rewrite E. split; [reflexivity|]. split.
  - intros H. rewrite H. reflexivity.
  - intros kvs i H Hbody Hi. rewrite H, Hbody, Hi. reflexivity.
Qed.

(** [set_featured_image] returns [True] only after the image file exists,
    its upload is answered 200/201 with a JSON dict, and the post is then
    updated with that dict's ["id"] and answered 200/201; these are its
    only two requests, and it writes no file. *)
Theorem set_featured_image_true pid f (w : @World Server) w' :
  set_featured_image transport image_exists pid f w = (Some true, w') ->
  image_exists f = true /\
  exists up kvs srv1 up2 srv2,
    transport (w_server w) (RUploadMedia f) = (Some up, srv1) /\
    ok_status up = true /\ body up = Json (PDict kvs) /\
    transport srv1 (RSetFeatured pid (get_or kvs "id" PNone)) = (Some up2, srv2) /\
    ok_status up2 = true /\
    w' = mkWorld (w_fs w) srv2 (w_faults w)
           (app (w_log w) [ERequest (RUploadMedia f);
                           ERequest (RSetFeatured pid (get_or kvs "id" PNone))]).
Proof.
  intros H. destruct (image_exists f) eqn:Ei.
  2: { unfold set_featured_image in H. rewrite Ei in H. discriminate H. }
  split; [reflexivity|]. revert H.
  unfold set_featured_image. rewrite Ei. cbn [negb]. cbv beta iota.
  cbv beta iota zeta delta [catch bind http json py_get ret raise].
  destruct (transport (w_server w) (RUploadMedia f)) as [[up|] srv1] eqn:E1;
    [|intros H; discriminate H].
  destruct (ok_status up) eqn:Eok1; cbn [negb].
  2: { destruct (body up) as [|[| | | | |kvs]]; intros H; discriminate H. }
  destruct (body up) as [|[| | | | |kvs]] eqn:Eb; try (intros H; discriminate H).
  cbn [w_server w_fs w_faults w_log].
  destruct (transport srv1 (RSetFeatured pid (get_or kvs "id" PNone))) as [[up2|] srv2] eqn:E2;
    [|intros H; discriminate H].
  destruct (ok_status up2) eqn:Eok2.
  - intros H. injection H as <-.
    exists up, kvs, srv1, up2, srv2. repeat split; try assumption.
    simpl. rewrite <- app_assoc. reflexivity.
  - destruct (body up2) as [|[| | | | |kvs2]]; intros H; discriminate H.
Qed.

(** The first candidate [cover.<ext>] of a folder that exists, in the
    order of [cover_extensions]. *)
Lemma first_existing_spec folder exts c :
  first_existing image_exists folder exts = Some c ->
  exists pre e post, exts = app pre (e :: post) /\ c = join folder ("cover" ++ e) /\
    image_exists c = true /\
    Forall (fun e' => image_exists (join folder ("cover" ++ e')) = false) pre.
Proof.
  induction exts as [|e exts IH]; [intros H; discriminate H|].
  change (first_existing image_exists folder (e :: exts)) with
    (let cover_path := join folder ("cover" ++ e) in
     if image_exists cover_path then Some cover_path
     else first_existing image_exists folder exts). cbv zeta.
  destruct (image_exists (join folder ("cover" ++ e))) eqn:Ee.
  - intros [= Hc]. subst c. exists [], e, exts. auto.
  - intros H. destruct (IH H) as (pre & e' & post & -> & Hc & Hx & Hf).
    exists (e :: pre), e', post. repeat split; auto.
Qed.

Lemma first_existing_none folder exts :
  first_existing image_exists folder exts = None ->
  Forall (fun e => image_exists (join folder ("cover" ++ e)) = false) exts.
Proof.
  induction exts as [|e exts IH]; [constructor|].
  change (first_existing image_exists folder (e :: exts)) with
    (let cover_path := join folder ("cover" ++ e) in
     if image_exists cover_path then Some cover_path
     else first_existing image_exists folder exts). cbv zeta.
  destruct (image_exists (join folder ("cover" ++ e))) eqn:Ee; [discriminate|].
  intros H. constructor; auto.
Qed.

Lemma first_existing_app folder pre e post :
  Forall (fun e' => image_exists (join folder ("cover" ++ e')) = false) pre ->
  image_exists (join folder ("cover" ++ e)) = true ->
  first_existing image_exists folder (app pre (e :: post)) = Some (join folder ("cover" ++ e)).
Proof.
  induction pre as [|e0 pre IH]; intros Hf He.
  - change (first_existing image_exists folder (app [] (e :: post))) with
      (let cover_path := join folder ("cover" ++ e) in
       if image_exists cover_path then Some cover_path
       else first_existing image_exists folder post). cbv zeta. rewrite He. reflexivity.
  - inversion Hf as [|? ? H0 Hf']; subst.
    change (first_existing image_exists folder (app (e0 :: pre) (e :: post))) with
      (let cover_path := join folder ("cover" ++ e0) in
       if image_exists cover_path then Some cover_path
       else first_existing image_exists folder (app pre (e :: post))). cbv zeta.
    rewrite H0. apply IH; assumption.
Qed.

Lemma first_existing_missing folder exts :
  Forall (fun e => image_exists (join folder ("cover" ++ e)) = false) exts ->
  first_existing image_exists folder exts = None.
Proof.
  induction 1 as [|e exts He _ IH]; [reflexivity|].
  change (first_existing image_exists folder (e :: exts)) with
    (let cover_path := join folder ("cover" ++ e) in
     if image_exists cover_path then Some cover_path
     else first_existing image_exists folder exts). cbv zeta.
  rewrite He. exact IH.
Qed.

(** [c] is the cover of [folder]: [cover<ext>] for an extension [ext]
    of [cover_extensions] such that it exists and no [cover<ext'>] with
    [ext'] before [ext] does. *)
Definition first_cover (folder c : string) : Prop :=
  exists pre e post, cover_extensions = app pre (e :: post) /\
    c = join folder ("cover" ++ e) /\ image_exists c = true /\
    Forall (fun e' => image_exists (join folder ("cover" ++ e')) = false) pre.

(** [folder] has no [cover<ext>] for any extension. *)
Definition no_cover (folder : string) : Prop :=
  Forall (fun e => image_exists (join folder ("cover" ++ e)) = false) cover_extensions.

(** [find_cover_image(path)] searches the folder of [path] first: it
    returns [c] exactly when [c] is the cover of that folder, or when
    that folder has no cover, its parent is another folder, and [c] is
    the parent's cover. *)
Theorem find_cover_image_spec path c :
  find_cover_image image_exists path = Some c <->
  first_cover (dirname path) c \/
  (no_cover (dirname path) /\ dirname (dirname path) <> dirname path /\
   first_cover (dirname (dirname path)) c).
Proof.
  unfold find_cover_image. cbv zeta. split.
  - destruct (first_existing image_exists (dirname path) cover_extensions) as [c0|] eqn:E0.
    + intros [= Hc]. subst c. left. exact (first_existing_spec _ _ _ E0).
    + destruct (String.eqb (dirname (dirname path)) (dirname path)) eqn:Ep; cbn [negb];
        [discriminate|].
      intros H. right. split; [apply first_existing_none; exact E0|].
      split; [apply String.eqb_neq; exact Ep|]. exact (first_existing_spec _ _ _ H).
  - intros [(pre & e & post & He & Hc & Hx & Hf) | (Hn & Hp & (pre & e & post & He & Hc & Hx & Hf))].
    + rewrite He. subst c. rewrite first_existing_app by assumption. reflexivity.
    + rewrite first_existing_missing by exact Hn.
      apply String.eqb_neq in Hp. rewrite Hp. cbn [negb]. cbv beta iota.
      rewrite He. subst c. apply first_existing_app; assumption.
Qed.

(** [save_metadata_to_file(file_path, ...)] changes no other path: every
    other file, its temporary file included, reads as before, whatever
    the call meets. *)
Theorem save_metadata_to_file_footprint file_path key value (w : @World Server) q :
  q <> file_path ->
  fs_get (snd (save_metadata_to_file text_len fm_loads fm_dumps file_path key value w)) q
  = fs_get w q.
Proof.
  intros Hq. pose proof (save_cases text_len fm_loads fm_dumps file_path key value w) as H.
  cbv zeta in H.
  destruct (save_metadata_to_file text_len fm_loads fm_dumps file_path key value w) as [r w'].
  simpl. unfold fs_get.
  destruct H as [[Hfs _]|(o & p & n & H)]; [rewrite Hfs; reflexivity|].
  destruct H as (_ & _ & _ & _ & _ & Htmp & _ & _ & _ & _ & _ & Hfs & _).
  rewrite Hfs.
  set (temp := join (dirname file_path) (tmp_name (current_faults w))) in *.
  destruct (String.eqb q temp) eqn:Et.
  - apply String.eqb_eq in Et. subst q. rewrite fs_remove_get. symmetry. exact Htmp.
  - apply String.eqb_neq in Et.
    rewrite fs_remove_get_other by exact Et.
    rewrite dict_get_set_other by exact Hq.
    rewrite !dict_get_set_other by exact Et. reflexivity.
Qed.
(** Possible results of a computation that returns. *)
Definition returns {A} (Q : A -> Prop) (m : @M Server A) : Prop :=
  forall w x w', m w = (Some x, w') -> Q x.

Lemma returns_ret {A} (Q : A -> Prop) x : Q x -> returns Q (ret x).
Proof. intros Hx w y w' H. injection H as <- _. exact Hx. Qed.

Lemma returns_weaken {A} (Q1 Q : A -> Prop) (m : M A) :
  (forall x, Q1 x -> Q x) -> returns Q1 m -> returns Q m.
Proof. intros HQ Hm w x w' H. exact (HQ x (Hm _ _ _ H)). Qed.

Lemma returns_bind_any {A B} (Q : B -> Prop) (m : M A) (k : A -> M B) :
  (forall x, returns Q (k x)) -> returns Q (bind m k).
Proof.
  intros Hk w y w' H. unfold bind in H.
  destruct (m w) as [[x|] w1]; [exact (Hk x _ _ _ H)|discriminate H].
Qed.

Lemma returns_bind {A B} (Q1 : A -> Prop) (Q : B -> Prop) (m : M A) (k : A -> M B) :
  returns Q1 m -> (forall x, Q1 x -> returns Q (k x)) -> returns Q (bind m k).
Proof.
  intros Hm Hk w y w' H. unfold bind in H.
  destruct (m w) as [[x|] w1] eqn:E; [|discriminate H].
  exact (Hk x (Hm _ _ _ E) _ _ _ H).
Qed.

Lemma set_cover_returns pid path s :
  returns (fun s' => s' = s \/ s' = bump_thumbnail s) (set_cover transport image_exists pid path s).
Proof.
  unfold set_cover. destruct (find_cover_image image_exists path).
  - apply returns_bind_any. intros ok. apply returns_ret. destruct ok; auto.
  - apply returns_ret. auto.
Qed.

Lemma process_en_returns pair id s1 :
  returns (fun r => r = s1 \/ r = set_failed s1 \/
             exists b, r = bump_linked (bump_en b s1) \/ r = set_failed (bump_en b s1) \/
                       r = bump_linked (bump_thumbnail (bump_en b s1)) \/
                       r = set_failed (bump_thumbnail (bump_en b s1)))
          (process_en text_len fm_loads fm_dumps transport image_exists encodes pair id s1).
Proof.
  unfold process_en. destruct (en_file pair) as [e|]; [|apply returns_ret; auto].
  destruct (String.eqb e ""); [apply returns_ret; auto|].
  apply returns_bind_any; intros parsed. apply returns_bind_any; intros md.
  apply returns_bind_any; intros res.
  destruct (negb (success res)); [apply returns_ret; auto|]. cbv zeta.
  apply returns_bind_any; intros _.
  eapply returns_bind; [apply set_cover_returns|]. intros s3 Hs3.
  apply returns_bind_any; intros ok. apply returns_ret. right; right.
  exists (truthy (en_existing_id pair)).
  destruct Hs3 as [-> | ->]; destruct ok; auto.
Qed.

Definition kc (s : Stats) : nat := (ko_created s + ko_updated s)%nat.
Definition ec (s : Stats) : nat := (en_created s + en_updated s)%nat.

(** How one pair moves the counters. *)
Definition step (s s' : Stats) : Prop :=
  (total s' = total s /\ kc s <= kc s' <= S (kc s) /\ ec s <= ec s' /\
   linked s <= linked s' /\ failed s <= failed s' /\ thumbnail_set s <= thumbnail_set s' /\
   S (kc s + failed s) <= kc s' + failed s' /\
   ec s' + kc s <= ec s + kc s' /\ linked s' + ec s <= linked s + ec s' /\
   linked s' + failed s' <= S (linked s + failed s) /\
   thumbnail_set s' + kc s + ec s <= thumbnail_set s + kc s' + ec s')%nat.

(** What each counter update does to the sums the step relation reads. *)
Lemma total_set_failed s : total (set_failed s) = total s.
Proof. unfold kc, ec; simpl; lia. Qed.
Lemma kc_set_failed s : kc (set_failed s) = kc s.
Proof. unfold kc, ec; simpl; lia. Qed.
Lemma ec_set_failed s : ec (set_failed s) = ec s.
Proof. unfold kc, ec; simpl; lia. Qed.
Lemma linked_set_failed s : linked (set_failed s) = linked s.
Proof. unfold kc, ec; simpl; lia. Qed.
Lemma failed_set_failed s : failed (set_failed s) = S (failed s).
Proof. unfold kc, ec; simpl; lia. Qed.
Lemma thumbnail_set_set_failed s : thumbnail_set (set_failed s) = thumbnail_set s.
Proof. unfold kc, ec; simpl; lia. Qed.
Lemma total_bump_ko b s : total (bump_ko b s) = total s.
Proof. destruct b; unfold kc, ec; simpl; lia. Qed.
Lemma kc_bump_ko b s : kc (bump_ko b s) = S (kc s).
Proof. destruct b; unfold kc, ec; simpl; lia. Qed.
Lemma ec_bump_ko b s : ec (bump_ko b s) = ec s.
Proof. destruct b; unfold kc, ec; simpl; lia. Qed.
Lemma linked_bump_ko b s : linked (bump_ko b s) = linked s.
Proof. destruct b; unfold kc, ec; simpl; lia. Qed.
Lemma failed_bump_ko b s : failed (bump_ko b s) = failed s.
Proof. destruct b; unfold kc, ec; simpl; lia. Qed.
Lemma thumbnail_set_bump_ko b s : thumbnail_set (bump_ko b s) = thumbnail_set s.
Proof. destruct b; unfold kc, ec; simpl; lia. Qed.
Lemma total_bump_en b s : total (bump_en b s) = total s.
Proof. destruct b; unfold kc, ec; simpl; lia. Qed.
Lemma kc_bump_en b s : kc (bump_en b s) = kc s.
Proof. destruct b; unfold kc, ec; simpl; lia. Qed.
Lemma ec_bump_en b s : ec (bump_en b s) = S (ec s).
Proof. destruct b; unfold kc, ec; simpl; lia. Qed.
Lemma linked_bump_en b s : linked (bump_en b s) = linked s.
Proof. destruct b; unfold kc, ec; simpl; lia. Qed.
Lemma failed_bump_en b s : failed (bump_en b s) = failed s.
Proof. destruct b; unfold kc, ec; simpl; lia. Qed.
Lemma thumbnail_set_bump_en b s : thumbnail_set (bump_en b s) = thumbnail_set s.
Proof. destruct b; unfold kc, ec; simpl; lia. Qed.
Lemma total_bump_linked s : total (bump_linked s) = total s.
Proof. unfold kc, ec; simpl; lia. Qed.
Lemma kc_bump_linked s : kc (bump_linked s) = kc s.
Proof. unfold kc, ec; simpl; lia. Qed.
Lemma ec_bump_linked s : ec (bump_linked s) = ec s.
Proof. unfold kc, ec; simpl; lia. Qed.
Lemma linked_bump_linked s : linked (bump_linked s) = S (linked s).
Proof. unfold kc, ec; simpl; lia. Qed.
Lemma failed_bump_linked s : failed (bump_linked s) = failed s.
Proof. unfold kc, ec; simpl; lia. Qed.
Lemma thumbnail_set_bump_linked s : thumbnail_set (bump_linked s) = thumbnail_set s.
Proof. unfold kc, ec; simpl; lia. Qed.
Lemma total_bump_thumbnail s : total (bump_thumbnail s) = total s.
Proof. unfold kc, ec; simpl; lia. Qed.
Lemma kc_bump_thumbnail s : kc (bump_thumbnail s) = kc s.
Proof. unfold kc, ec; simpl; lia. Qed.
Lemma ec_bump_thumbnail s : ec (bump_thumbnail s) = ec s.
Proof. unfold kc, ec; simpl; lia. Qed.
Lemma linked_bump_thumbnail s : linked (bump_thumbnail s) = linked s.
Proof. unfold kc, ec; simpl; lia. Qed.
Lemma failed_bump_thumbnail s : failed (bump_thumbnail s) = failed s.
Proof. unfold kc, ec; simpl; lia. Qed.
Lemma thumbnail_set_bump_thumbnail s : thumbnail_set (bump_thumbnail s) = S (thumbnail_set s).
Proof. unfold kc, ec; simpl; lia. Qed.

Create Rewrite HintDb stats.
#[local] Hint Rewrite total_set_failed kc_set_failed ec_set_failed linked_set_failed failed_set_failed thumbnail_set_set_failed total_bump_ko kc_bump_ko ec_bump_ko linked_bump_ko failed_bump_ko thumbnail_set_bump_ko total_bump_en kc_bump_en ec_bump_en linked_bump_en failed_bump_en thumbnail_set_bump_en total_bump_linked kc_bump_linked ec_bump_linked linked_bump_linked failed_bump_linked thumbnail_set_bump_linked total_bump_thumbnail kc_bump_thumbnail ec_bump_thumbnail linked_bump_thumbnail failed_bump_thumbnail thumbnail_set_bump_thumbnail : stats.

Ltac stats_leaf :=
  unfold step; autorewrite with stats; repeat split; lia.

Lemma process_pair_step p s :
  returns (step s) (process_pair text_len fm_loads fm_dumps transport image_exists encodes p s).
Proof.
  unfold process_pair.
  apply returns_bind_any; intros parsed. apply returns_bind_any; intros md.
  apply returns_bind_any; intros res.
  destruct (negb (success res)); [apply returns_ret; stats_leaf|]. cbv zeta.
  apply returns_bind_any; intros _.
  eapply returns_bind; [apply set_cover_returns|]. intros s1 Hs1.
  eapply returns_weaken; [|apply process_en_returns]. intros r Hr.
  destruct Hs1 as [-> | ->];
    destruct Hr as [-> | [-> | (b & [-> | [-> | [-> | ->]]])]]; stats_leaf.
Qed.

Definition inv (n p : nat) (s : Stats) : Prop :=
  (total s = n /\ kc s <= p <= kc s + failed s /\ ec s <= kc s /\ linked s <= ec s /\
   linked s + failed s <= p /\ thumbnail_set s <= kc s + ec s)%nat.

Lemma inv_step n p s s' : inv n p s -> step s s' -> inv n (S p) s'.
Proof. unfold inv, step. lia. Qed.

Lemma process_loop_inv n pairs : forall p s, inv n p s ->
  returns (inv n (p + length pairs)%nat)
          (process_loop text_len fm_loads fm_dumps transport image_exists encodes pairs s).
Proof.
  induction pairs as [|q qs IH]; intros p s Hs; simpl.
  - apply returns_ret. rewrite Nat.add_0_r. exact Hs.
  - eapply returns_bind; [apply process_pair_step|]. intros s' Hs'.
    replace (p + S (length qs))%nat with (S p + length qs)%nat by lia.
    apply IH. eapply inv_step; eauto.
Qed.

(** When [process_pairs] completes, its counters agree: [total] is the
    number of pairs; every pair has a Korean post created or updated or
    counts as failed; English posts are at most the Korean ones, links
    at most the English posts; a pair is counted at most once among
    linked and failed; thumbnails are at most the published posts. *)
Theorem process_pairs_stats pairs (w : World) s w' :
  process_pairs text_len fm_loads fm_dumps transport image_exists encodes pairs w = (Some s, w') ->
  (total s = length pairs /\
   ko_created s + ko_updated s <= total s <= ko_created s + ko_updated s + failed s /\
   en_created s + en_updated s <= ko_created s + ko_updated s /\
   linked s <= en_created s + en_updated s /\
   linked s + failed s <= total s /\
   thumbnail_set s <= ko_created s + ko_updated s + en_created s + en_updated s)%nat.
Proof.
  unfold process_pairs. intros H.
  assert (H0 : inv (length pairs) 0 (mkStats (length pairs) 0 0 0 0 0 0 0))
    by (unfold inv, kc, ec; simpl; lia).
  pose proof (process_loop_inv (length pairs) pairs 0 _ H0 w s w' H) as Hi.
  unfold inv, kc, ec in Hi. simpl in Hi. lia.
Qed.



(** [_set_polylang_language] never raises: it sends its one request and,
    whatever the answer or a transport error, returns normally without
    touching the files. *)
Theorem set_polylang_language_result pid lang (w : @World Server) :
  set_polylang_language transport pid lang w
  = (Some tt, mkWorld (w_fs w) (snd (transport (w_server w) (RSetLanguage pid lang)))
                (w_faults w) (app (w_log w) [ERequest (RSetLanguage pid lang)])).
Proof.
  unfold set_polylang_language, catch, bind, http, ret. cbv beta.
  destruct (transport (w_server w) (RSetLanguage pid lang)) as [[r|] srv]; reflexivity.
Qed.

(** [link_translations] never raises and sends exactly one request; it
    reports success exactly when the server answers 200 or 201 with a
    JSON object whose [success] field is truthy. *)
Theorem link_translations_result ko en (w : @World Server) :
  fst (link_translations transport ko en w) <> None /\
  snd (link_translations transport ko en w)
    = mkWorld (w_fs w) (snd (transport (w_server w) (RLinkTranslations ko en)))
        (w_faults w) (app (w_log w) [ERequest (RLinkTranslations ko en)]) /\
  (fst (link_translations transport ko en w) = Some true <->
   exists r kvs, fst (transport (w_server w) (RLinkTranslations ko en)) = Some r /\
     ok_status r = true /\ body r = Json (PDict kvs) /\
     truthy (get_or kvs "success" PNone) = true).
Proof.
  unfold link_translations, catch, bind, http, json, py_get, ret, raise. cbv beta.
  destruct (transport (w_server w) (RLinkTranslations ko en)) as [[r|] srv]; cbn [fst snd].
  2: { split; [discriminate|]. split; [reflexivity|].
       split; [discriminate|]. intros (r & kvs & H & _). discriminate H. }
  destruct (ok_status r) eqn:Eo; cbv beta iota.
  - destruct (body r) as [|v] eqn:Eb; cbv beta iota.
    + split; [discriminate|]. split; [reflexivity|].
      split; [discriminate|]. intros (r' & kvs & [= <-] & _ & H & _). congruence.
    + destruct v as [| | | | |kvs]; cbv beta iota;
        try (split; [discriminate|]; split; [reflexivity|];
             split; [discriminate|]; intros (r' & kvs & [= <-] & _ & H & _); congruence).
      destruct (truthy (get_or kvs "success" PNone)) eqn:Et; cbv beta iota.
      * split; [discriminate|]. split; [reflexivity|].
        split; [intros _; exists r, kvs; auto|reflexivity].
      * split; [discriminate|]. split; [reflexivity|].
        split; [discriminate|]. intros (r' & kvs' & [= <-] & _ & H & Ht). congruence.
  - destruct (body r) as [|v] eqn:Eb; cbv beta iota;
      [|destruct v; cbv beta iota];
      (split; [discriminate|]; split; [reflexivity|];
       split; [discriminate|]; intros (r' & kvs & [= <-] & H & _); congruence).
Qed.
End Env.

Lemma get_or_create_category_found_witness :
  let tr := fun (s : PublishSamples.WP) (r : Request) =>
    match r with
    | RCategorySearch _ => (PublishSamples.answer 200 (PList [PDict [("id", PInt 7)]]), s)
    | _ => PublishSamples.wp_transport 201 s r
    end in
  let w := PublishSamples.notes_world PublishSamples.sample_doc in
  get_or_create_category tr PublishSamples.all_encode (PStr "news") w
  = (Some (PInt 7), mkWorld (w_fs w) (w_server w) (w_faults w)
                      (app (w_log w) [ERequest (RCategorySearch "news")])).
Proof.
  intros tr w.
  apply (get_or_create_category_found tr PublishSamples.all_encode "news" w (w_server w) [("id", PInt 7)] [] (PInt 7));
    reflexivity.
Defined.

Lemma get_or_create_category_creates_witness :
  let w := PublishSamples.notes_world PublishSamples.sample_doc in
  snd (get_or_create_category (PublishSamples.wp_transport 201) PublishSamples.all_encode (PStr "news") w)
    = mkWorld (w_fs w) (w_server w) (w_faults w)
        (app (w_log w) [ERequest (RCategorySearch "news"); ERequest (RCategoryCreate "news")]) /\
  fst (get_or_create_category (PublishSamples.wp_transport 201) PublishSamples.all_encode (PStr "news") w) = Some (PInt 1).
Proof.
  intros w.
  assert (H := get_or_create_category_creates (PublishSamples.wp_transport 201) PublishSamples.all_encode "news" w
                 (mkResponse 200 (Json (PList []))) (w_server w)
                 (mkResponse 201 (Json (PDict [("id", PInt 1)]))) (w_server w)).
  destruct H as (H1 & _ & H3).
  - reflexivity.
  - reflexivity.
  - right. exists (PList []). split; reflexivity.
  - reflexivity.
  - split; [exact H1|]. apply (H3 [("id", PInt 1)]); reflexivity.
Defined.

Lemma set_featured_image_true_witness :
  let w := PublishSamples.notes_world PublishSamples.sample_doc in
  let w' := snd (set_featured_image (PublishSamples.wp_transport 201) (fun _ => true)
                   (PInt 1) "/notes/cover.png" w) in
  exists up kvs srv1 up2 srv2,
    PublishSamples.wp_transport 201 (w_server w) (RUploadMedia "/notes/cover.png") = (Some up, srv1) /\
    ok_status up = true /\ body up = Json (PDict kvs) /\
    PublishSamples.wp_transport 201 srv1 (RSetFeatured (PInt 1) (get_or kvs "id" PNone))
      = (Some up2, srv2) /\
    ok_status up2 = true /\
    w' = mkWorld (w_fs w) srv2 (w_faults w)
           (app (w_log w) [ERequest (RUploadMedia "/notes/cover.png");
                           ERequest (RSetFeatured (PInt 1) (get_or kvs "id" PNone))]).
Proof.
  intros w w'.
  apply (set_featured_image_true (PublishSamples.wp_transport 201) (fun _ => true)
           (PInt 1) "/notes/cover.png" w w').
  vm_compute. reflexivity.
Defined.

Lemma find_cover_image_spec_witness :
  let ie := fun p => String.eqb p "/n/cover.png" in
  find_cover_image ie "/n/en/a.md" = Some "/n/cover.png".
Proof.
  intros ie. apply (proj2 (find_cover_image_spec ie "/n/en/a.md" "/n/cover.png")).
  right. split; [|split].
  - vm_compute. repeat constructor.
  - vm_compute. discriminate.
  - exists [".jpg"; ".jpeg"], ".png", [".gif"; ".webp"]. vm_compute.
    split; [reflexivity|split; [reflexivity|split; [reflexivity|repeat constructor]]].
Defined.

Lemma save_metadata_to_file_footprint_witness :
  let w := PublishSamples.save_world no_faults in
  fs_get (snd (save_metadata_to_file String.length PublishSamples.toy_loads
                 PublishSamples.toy_dumps "/notes/a.md" "wp-post-id" (PInt 7) w)) "/other.md"
  = fs_get w "/other.md".
Proof.
  intros w. apply (save_metadata_to_file_footprint String.length PublishSamples.toy_loads
                     PublishSamples.toy_dumps "/notes/a.md" "wp-post-id" (PInt 7) w "/other.md").
  discriminate.
Defined.

Lemma process_pairs_stats_witness :
  let pairs := [PublishSamples.stale_pair; mkPair (PStr "A") "/notes/a.md" None PNone PNone] in
  let R := process_pairs String.length PublishSamples.toy_loads PublishSamples.toy_dumps
             (PublishSamples.wp_transport 201) PublishSamples.no_images PublishSamples.all_encode pairs
             (PublishSamples.notes_world PublishSamples.stale_doc) in
  let s := mkStats 2 1 0 0 0 0 1 0 in
  fst R = Some s /\
  (total s = length pairs /\
   ko_created s + ko_updated s <= total s <= ko_created s + ko_updated s + failed s /\
   en_created s + en_updated s <= ko_created s + ko_updated s /\
   linked s <= en_created s + en_updated s /\
   linked s + failed s <= total s /\
   thumbnail_set s <= ko_created s + ko_updated s + en_created s + en_updated s)%nat.
Proof.
  intros pairs R s. split; [vm_compute; reflexivity|].
  apply (process_pairs_stats String.length PublishSamples.toy_loads PublishSamples.toy_dumps
           (PublishSamples.wp_transport 201) PublishSamples.no_images PublishSamples.all_encode pairs
           (PublishSamples.notes_world PublishSamples.stale_doc) s (snd R)).
  vm_compute. reflexivity.
Defined.


End PublisherFacts.


Module PairIdFacts.
Import Resolver PairIds Samples.

(** The existing post ids a pair carries are the [wp-post-id] values of
    the front matter of its Korean and English files. *)
Theorem collect_language_pairs_ids dir_exists load files pairs :
  collect_language_pairs dir_exists load files = Some pairs ->
  forall p, In p pairs ->
    (exists m, parse_markdown_file (ko_file p) (load (ko_file p)) = Some m /\
               ko_existing_id p = m_wp_post_id m) /\
    (forall e, en_file p = Some e ->
       exists m, parse_markdown_file e (load e) = Some m /\ en_existing_id p = m_wp_post_id m).
Proof. exact (collect_ids dir_exists load files pairs). Qed.

Lemma collect_language_pairs_ids_witness :
  let p := mkPair (PStr "k") "/r/k.md" (Some "/r/x.md") PNone (PInt 7) in
  (exists m, parse_markdown_file (ko_file p) (load_m (ko_file p)) = Some m /\
             ko_existing_id p = m_wp_post_id m) /\
  (forall e, en_file p = Some e ->
     exists m, parse_markdown_file e (load_m e) = Some m /\ en_existing_id p = m_wp_post_id m).
Proof.
  intros p.
  apply (collect_language_pairs_ids (fun _ => true) load_m files_m
           [p; mkPair (PStr "s") "/r/s.md" (Some "/r/s.md") (PInt 9) (PInt 9)]).
  - vm_compute. reflexivity.
  - left. reflexivity.
Defined.

End PairIdFacts.
